(** * snitchvisbot: the indexing coordinator, the channel indexer and the
      render admission path of [main.py], as a shallow embedding.

    Conventions of the embedding.
    - Python integers are [Z]; message and channel ids are Discord ids.
    - Timestamps ([datetime.timestamp()]) are counted in whole seconds, as [Z].
    - [None] is [None]; Python truthiness is written out where the source
      relies on it ([truthy_id], [truthy_past], [truthy_export]).
    - The module [db] of the bot is not part of [main.py]; the tables and the
      operations the bot calls are modelled in [Module db] below.
    - [print] and [channel.send] append to an output log. *)

From Stdlib Require Import ZArith List String Bool Lia.
Import ListNotations.
Local Open Scope string_scope.
Local Open Scope list_scope.
Local Open Scope Z_scope.

(** ** Data model *)

(** A Discord message, as far as the bot reads it: [message.id],
    [message.channel.id], [message.guild.id], [message.content]. *)
Record Message := {
  message_id : Z;
  message_channel : Z;
  message_guild : Z;
  message_content : string
}.

(** [snitchvis.Event], with the attributes [export_to_sql] reads. *)
Record Event := {
  event_username : string;
  event_snitch_name : option string;
  event_namelayer_group : string;
  event_x : Z;
  event_y : Z;
  event_z : Z;
  event_t : Z
}.

(** A row of the [snitch_channel] table. [last_indexed_id] is nullable. *)
Record SnitchChannel := {
  channel_id : Z;
  channel_guild : Z;
  last_indexed_id : option Z
}.

(** A row of the render history: guild, pixels, completion timestamp. *)
Record RenderHistory := {
  history_guild : Z;
  history_pixels : Z;
  history_timestamp : Z
}.

Record Tables := {
  snitch_channel : list SnitchChannel;
  event : list (Message * Event);
  render_history : list RenderHistory
}.

(** The database connection: [conn] is what the connection reads and writes
    (uncommitted writes included), [disk] is the last committed content. *)
Record Db := {
  conn : Tables;
  disk : Tables
}.

(** Python truthiness of a nullable id: [None] and [0] are falsy. *)
Definition truthy_id (i : option Z) : bool :=
  match i with
  | Some v => negb (v =? 0)
  | None => false
  end.

Module db.

(** Modelled from the spec: [db.commit] of the missing [db] module; it makes
    every pending write of the connection durable. *)
Definition commit (d : Db) : Db :=
  {| conn := conn d; disk := conn d |}.

(** Modelled from the spec: a write of the missing [db] module, through the
    connection, committed at once when [commit] is true (the default). *)
Definition write (f : Tables -> Tables) (do_commit : bool) (d : Db) : Db :=
  let d' := {| conn := f (conn d); disk := disk d |} in
  if do_commit then commit d' else d'.

(** Modelled from the spec: [db.get_snitch_channels(guild)] of the missing
    [db] module; the rows of one guild, or every row for [None]. *)
Definition get_snitch_channels (guild : option Z) (d : Db)
  : list SnitchChannel :=
  match guild with
  | None => snitch_channel (conn d)
  | Some g => filter (fun c => channel_guild c =? g) (snitch_channel (conn d))
  end.

(** Modelled from the spec: [db.get_snitch_channel(channel)] of the missing
    [db] module; the row of that channel, or [None] for an unknown one. *)
Definition get_snitch_channel (channel : Z) (d : Db) : option SnitchChannel :=
  find (fun c => channel_id c =? channel) (snitch_channel (conn d)).

(** Modelled from the spec: the row-wise effect of the UPDATE below. *)
Definition set_cursor (channel id : Z) (c : SnitchChannel) : SnitchChannel :=
  if channel_id c =? channel
  then {| channel_id := channel_id c; channel_guild := channel_guild c;
          last_indexed_id := Some id |}
  else c.

(** Modelled from the spec: [db.update_last_indexed(channel, id, commit)] of
    the missing [db] module; an UPDATE of the channel's cursor (rows of
    other channels, and an unknown channel, are left as they are). *)
Definition update_last_indexed (channel id : Z) (do_commit : bool) (d : Db)
  : Db :=
  write (fun tb =>
    {| snitch_channel := map (set_cursor channel id) (snitch_channel tb);
       event := event tb;
       render_history := render_history tb |}) do_commit d.

(** Modelled from the spec: [db.add_event(message, event, commit)] of the
    missing [db] module; events are appended, never mutated. *)
Definition add_event (m : Message) (e : Event) (do_commit : bool) (d : Db)
  : Db :=
  write (fun tb =>
    {| snitch_channel := snitch_channel tb;
       event := event tb ++ [(m, e)];
       render_history := render_history tb |}) do_commit d.

(** Modelled from the spec: [db.get_pixel_usage(guild, start, end)] of the
    missing [db] module; the sum of the costs recorded for the guild in
    the window [start <= t < end]. *)
Definition get_pixel_usage (guild start end_ : Z) (d : Db) : Z :=
  fold_right Z.add 0
    (map history_pixels
      (filter (fun r => (history_guild r =? guild)
                        && (start <=? history_timestamp r)
                        && (history_timestamp r <? end_))
              (render_history (conn d)))).

(** Modelled from the spec: [db.add_render_history(guild, pixels, t)] of the
    missing [db] module; one appended usage record, committed. *)
Definition add_render_history (guild pixels timestamp : Z) (d : Db) : Db :=
  write (fun tb =>
    {| snitch_channel := snitch_channel tb;
       event := event tb;
       render_history := render_history tb ++
         [{| history_guild := guild; history_pixels := pixels;
             history_timestamp := timestamp |}] |}) true d.

End db.

(** What the bot consumes and [main.py] does not define. *)
Class Collaborators := {
  (** [snitchvis.Event.parse]; [None] stands for [InvalidEventException]. *)
  Event_parse : string -> option Event;
  (** [db.most_recent_event(guild)]. *)
  most_recent_event : Db -> Z -> option Event;
  (** [db.get_events(guild, author, start, end, users, groups)]. *)
  get_events : Db -> Z -> Z -> Z -> Z -> list string -> list string
               -> list Event;
  (** [run_snitch_vis] in the process pool, on the events, size, fps and
      duration in milliseconds: [false] when the render raises. *)
  run_snitch_vis : list Event -> Z -> Z -> Z -> bool
}.

(** A text channel as Discord serves it: [permissions_for(me).read_messages]
    and [history(limit=None)], newest message first; [None] when reading the
    history raises. *)
Record TextChannel := {
  read_messages : bool;
  history : option (list Message)
}.

(** [self.get_channel(id)] / [channel.to_discord(guild)]. *)
Definition Discord := Z -> TextChannel.

(** Lines of [print] and of [message.channel.send]. *)
Inductive Output :=
| PrintConnected
| PrintCouldntIndex (channel guild : Z)
| PrintIndexingChannel (channel guild : Z)
| SendNoSnitchChannels
| SendIndexingFollowing (channels : list Z)
| SendNoReadPermission (channel : Z)
| SendIndexing (channel : Z)
| SendAddedEvents (n : nat) (channel : Z)
| SendFinishedIndexing.

(** Where the [on_ready] coroutine stands. *)
Inductive Pc :=
| PcStart
| PcBackfill (rest : list SnitchChannel)
| PcDrain
| PcDone
| PcRaised.

(** The client: the two attributes set in [__init__], the database, the
    output written so far and the position of [on_ready]. *)
Record Snitchvis := {
  defer_indexing : bool;
  indexing_queue : list Message;
  database : Db;
  output : list Output;
  ready : Pc
}.

Definition with_database (d : Db) (s : Snitchvis) : Snitchvis :=
  {| defer_indexing := defer_indexing s; indexing_queue := indexing_queue s;
     database := d; output := output s; ready := ready s |}.

Definition with_queue (q : list Message) (s : Snitchvis) : Snitchvis :=
  {| defer_indexing := defer_indexing s; indexing_queue := q;
     database := database s; output := output s; ready := ready s |}.

Definition with_defer (b : bool) (s : Snitchvis) : Snitchvis :=
  {| defer_indexing := b; indexing_queue := indexing_queue s;
     database := database s; output := output s; ready := ready s |}.

Definition with_ready (p : Pc) (s : Snitchvis) : Snitchvis :=
  {| defer_indexing := defer_indexing s; indexing_queue := indexing_queue s;
     database := database s; output := output s; ready := p |}.

Definition say (o : Output) (s : Snitchvis) : Snitchvis :=
  {| defer_indexing := defer_indexing s; indexing_queue := indexing_queue s;
     database := database s; output := output s ++ [o]; ready := ready s |}.

(** [Snitchvis.__init__]. *)
Definition init (d : Db) : Snitchvis :=
  {| defer_indexing := false; indexing_queue := []; database := d;
     output := []; ready := PcStart |}.

Section Indexing.

Context {collaborators : Collaborators}.

(** [Snitchvis.maybe_index_message], on the database. *)
Definition maybe_index_message (message : Message) (d : Db) : Db :=
  match db.get_snitch_channel (message_channel message) d with
  | None => d
  | Some snitch_channel =>
    if negb (truthy_id (last_indexed_id snitch_channel)) then d
    else
      match Event_parse (message_content message) with
      | None => d
      | Some event =>
        db.update_last_indexed (message_channel message)
          (message_id message) true
          (db.add_event message event true d)
      end
  end.

(** The [async for] loop of [index_channel], with its [break] and
    [continue]. *)
Fixpoint scan (last_id : option Z) (messages : list Message)
  : list (Message * Event) :=
  match messages with
  | [] => []
  | message_ :: rest =>
    if truthy_id last_id
       && (message_id message_ <=? match last_id with Some v => v | None => 0 end)
    then []
    else
      match Event_parse (message_content message_) with
      | None => scan last_id rest
      | Some event => (message_, event) :: scan last_id rest
      end
  end.

(** The loop over [events] that ends [index_channel]; the caller commits. *)
Definition add_events (events : list (Message * Event)) (d : Db) : Db :=
  fold_left (fun d' me => db.add_event (fst me) (snd me) false d') events d.

(** [Snitchvis.index_channel]: the state after the call and the returned
    events, or [None] when reading the history raises (nothing is written
    before either read). [history(limit=1)] is the first message of the
    history the scan has read. *)
Definition index_channel (channel : SnitchChannel)
    (discord_channel : TextChannel) (s : Snitchvis)
  : Snitchvis * option (list (Message * Event)) :=
  let s := say (PrintIndexingChannel (channel_id channel)
                  (channel_guild channel)) s in
  match history discord_channel with
  | None => (s, None)
  | Some messages =>
    let events := scan (last_indexed_id channel) messages in
    let last_messages := firstn 1 messages in
    let d :=
      match last_messages with
      | last_message :: _ =>
        db.update_last_indexed (channel_id channel)
          (message_id last_message) false (database s)
      | [] => database s
      end in
    (with_database (add_events events d) s, Some events)
  end.

(** [Snitchvis.on_message], after the command dispatch of the parent
    class. *)
Definition on_message (message : Message) (s : Snitchvis) : Snitchvis :=
  if negb (defer_indexing s)
  then with_database (maybe_index_message message (database s)) s
  else with_queue (indexing_queue s ++ [message]) s.

(** One stretch of [Snitchvis.on_ready], against the Discord state [w] of
    that moment: the start up to the loop, one turn of the [for] loop, the
    commit after it, one turn of the [while] loop, or its exit together
    with the reset of [defer_indexing]. A message delivered in the middle
    of [index_channel] only joins the queue, which [index_channel] does not
    read, so a turn of the [for] loop is taken as a whole. *)
Definition on_ready_step (w : Discord) (s : Snitchvis) : Snitchvis :=
  match ready s with
  | PcStart =>
    let s := with_defer true (say PrintConnected s) in
    with_ready (PcBackfill (db.get_snitch_channels None (database s))) s
  | PcBackfill (channel :: rest) =>
    let c := w (channel_id channel) in
    if negb (read_messages c)
    then with_ready (PcBackfill rest)
           (say (PrintCouldntIndex (channel_id channel)
                   (channel_guild channel)) s)
    else
      match index_channel channel c s with
      | (s', Some _) => with_ready (PcBackfill rest) s'
      | (s', None) => with_ready PcRaised s'
      end
  | PcBackfill [] =>
    with_ready PcDrain (with_database (db.commit (database s)) s)
  | PcDrain =>
    match indexing_queue s with
    | message :: q =>
      with_database (maybe_index_message message (database s))
        (with_queue q s)
    | [] => with_ready PcDone (with_defer false s)
    end
  | PcDone => s
  | PcRaised => s
  end.

(** What the event loop can run next: deliver a message to [on_message],
    or resume [on_ready]. *)
Inductive Action :=
| Arrive (message : Message)
| Resume (w : Discord).

Definition step (s : Snitchvis) (a : Action) : Snitchvis :=
  match a with
  | Arrive message => on_message message s
  | Resume w => on_ready_step w s
  end.

Definition run (schedule : list Action) (s : Snitchvis) : Snitchvis :=
  fold_left step schedule s.

Fixpoint arrivals (schedule : list Action) : list Message :=
  match schedule with
  | [] => []
  | Arrive message :: rest => message :: arrivals rest
  | Resume _ :: rest => arrivals rest
  end.

Fixpoint resumes (schedule : list Action) : list Action :=
  match schedule with
  | [] => []
  | Arrive _ :: rest => resumes rest
  | Resume w :: rest => Resume w :: resumes rest
  end.

(** How a command handler ends: by returning, or with an exception that
    leaves it. *)
Inductive Completion := Returned | Raised.

(** The body of the second loop of [Snitchvis.index]: one channel indexed,
    then committed. *)
Definition index_one (w : Discord) (channel : SnitchChannel) (s : Snitchvis)
  : Snitchvis * Completion :=
  let s := say (SendIndexing (channel_id channel)) s in
  match index_channel channel (w (channel_id channel)) s with
  | (s', None) => (s', Raised)
  | (s', Some events) =>
    let s' := with_database (db.commit (database s')) s' in
    (say (SendAddedEvents (List.length events) (channel_id channel)) s', Returned)
  end.

Fixpoint index_loop (w : Discord) (channels : list SnitchChannel)
    (s : Snitchvis) : Snitchvis * Completion :=
  match channels with
  | [] => (s, Returned)
  | channel :: rest =>
    match index_one w channel s with
    | (s', Raised) => (s', Raised)
    | (s', Returned) => index_loop w rest s'
    end
  end.

(** The first loop of [Snitchvis.index]: the first channel the bot cannot
    read, if there is one. *)
Definition first_unreadable (w : Discord) (channels : list SnitchChannel)
  : option SnitchChannel :=
  find (fun channel => negb (read_messages (w (channel_id channel))))
    channels.

(** [Snitchvis.index], the command, in guild [guild]. *)
Definition index (w : Discord) (guild : Z) (s : Snitchvis)
  : Snitchvis * Completion :=
  let channels := db.get_snitch_channels (Some guild) (database s) in
  match channels with
  | [] => (say SendNoSnitchChannels s, Returned)
  | _ :: _ =>
    let s := say (SendIndexingFollowing (map channel_id channels)) s in
    match first_unreadable w channels with
    | Some channel =>
      (say (SendNoReadPermission (channel_id channel)) s, Returned)
    | None =>
      match index_loop w channels s with
      | (s', Raised) => (s', Raised)
      | (s', Returned) => (say SendFinishedIndexing s', Returned)
      end
    end
  end.

(** The words of the spec: the live-processing path run on the messages one
    after the other, in arrival order, with nothing running next to it. *)
Definition live_sequential (messages : list Message) (d : Db) : Db :=
  fold_left (fun d' message => maybe_index_message message d') messages d.

(** The words of the spec for the history scan: the messages before the
    first one with an id at or below the cursor [C] ... *)
Fixpoint newer_than (C : Z) (messages : list Message) : list Message :=
  match messages with
  | [] => []
  | m :: rest => if message_id m <=? C then [] else m :: newer_than C rest
  end.

(** ... and the events of the messages that match the grammar. *)
Fixpoint events_of (messages : list Message) : list (Message * Event) :=
  match messages with
  | [] => []
  | m :: rest =>
    match Event_parse (message_content m) with
    | None => events_of rest
    | Some e => (m, e) :: events_of rest
    end
  end.

(** How the state [s] of a run relates to the state [r] of the same
    resumptions of [on_ready] with no message arriving, [arrived] being the
    messages delivered so far. *)
Definition simulates (s r : Snitchvis) (arrived : list Message) : Prop :=
  (exists rest,
      ready s = PcBackfill rest /\ ready r = PcBackfill rest
      /\ defer_indexing s = true /\ defer_indexing r = true
      /\ database s = database r
      /\ indexing_queue s = arrived /\ indexing_queue r = [])
  \/ (ready s = PcRaised /\ defer_indexing s = true)
  \/ ((ready r = PcDrain \/ ready r = PcDone)
      /\ indexing_queue r = []
      /\ live_sequential (indexing_queue s) (database s)
         = live_sequential arrived (database r)
      /\ ((ready s = PcDrain /\ defer_indexing s = true)
          \/ (ready s = PcDone /\ defer_indexing s = false
              /\ indexing_queue s = []))).

End Indexing.

(** ** The render command *)

(** [--past]: the string [all] or a [timedelta], in seconds. *)
Inductive Past :=
| PastAll
| PastDelta (total_seconds : Z).

(** Truthiness of [past]: [None] and a zero [timedelta] are falsy. *)
Definition truthy_past (p : option Past) : bool :=
  match p with
  | Some PastAll => true
  | Some (PastDelta total_seconds) => negb (total_seconds =? 0)
  | None => false
  end.

(** Truthiness of [export]: [None] and the empty string are falsy. *)
Definition truthy_export (e : option string) : bool :=
  match e with
  | Some s => negb (String.eqb s "")
  | None => false
  end.

(** [export == "sql"]. *)
Definition export_is (e : option string) (s : string) : bool :=
  match e with
  | Some s' => String.eqb s' s
  | None => false
  end.

(** The arguments of [render] that decide what it does; [start] and [end] are
    the timestamps of the parsed dates. [all_snitches], [fade] and [line]
    only travel to the renderer and are left out. *)
Record RenderArgs := {
  size : Z;
  fps : Z;
  duration : Z;
  users : list string;
  past : option Past;
  start : option Z;
  end_ : option Z;
  groups : list string;
  export : option string
}.

(** The clock readings of one call: [datetime.utcnow()] of the window, the
    two [datetime.now()] of the usage window, and [datetime.now()] when the
    usage is recorded. *)
Record Clock := {
  utcnow : Z;
  now_usage_start : Z;
  now_usage_end : Z;
  now_recorded : Z
}.

Inductive Outcome :=
| BadExport
| NoRecentEvent
| EndBeforeStart
| NoEvents
| ExportedSql
| TooManyPixels
| DailyLimit
| RenderRaised
| Rendered.

(** What [render] does besides returning, in order. *)
Inductive Effect :=
| SendExportMustBe
| SendNoEvents
| SendEndBeforeStart
| SendExporting
| SendSqlFile
| SendTooManyResources
| SendDailyLimit
| SendRendering
| SendVideo
| DeleteRendering
| LogVideo
| QueryMostRecentEvent
| QueryEvents (start end_ : Z)
| QueryAllEvents
| QuerySnitches
| ExportToSql (events : list Event)
| QueryPixelUsage (start end_ : Z)
| RunSnitchVis (size fps duration : Z)
| AddRenderHistory (pixels timestamp : Z).

(** The same request at another size, frame rate and duration. *)
Definition with_quality (size' fps' duration' : Z) (args : RenderArgs)
  : RenderArgs :=
  {| size := size'; fps := fps'; duration := duration';
     users := users args; past := past args; start := start args;
     end_ := end_ args; groups := groups args; export := export args |}.

(** A block of [render] either falls through with a value or returns. *)
Inductive Flow (A : Type) :=
| Continue (a : A)
| Return (o : Outcome).
Arguments Continue {A} a.
Arguments Return {A} o.

Definition PIXEL_LIMIT_VIDEO : Z := 200000000000000000.
Definition PIXEL_LIMIT_DAY : Z := 10000000000000000000000.

Section Render.

Context {collaborators : Collaborators}.

(** The [else] branch of [if past], up to the resolved dates. *)
Definition window_of_dates (args : RenderArgs) (clock : Clock) (guild : Z)
    (d : Db) : list Effect * Flow (Z * Z) :=
  match start args, end_ args with
  | None, None =>
    match most_recent_event d guild with
    | None => ([QueryMostRecentEvent; SendNoEvents], Return NoRecentEvent)
    | Some event =>
      let end_ := event_t event in
      ([QueryMostRecentEvent], Continue (end_ - 30 * 60, end_))
    end
  | Some start, None => ([], Continue (start, utcnow clock))
  | None, Some end_ => ([], Continue (0, end_))
  | Some start, Some end_ => ([], Continue (start, end_))
  end.

(** From [if past] to the check [end < start]. *)
Definition resolve_window (args : RenderArgs) (clock : Clock) (guild : Z)
    (d : Db) : list Effect * Flow (Z * Z) :=
  let resolved :=
    if truthy_past (past args) then
      let end_ := utcnow clock in
      match past args with
      | Some PastAll => ([], Continue (0, end_))
      | Some (PastDelta total_seconds) =>
        ([], Continue (end_ - total_seconds, end_))
      | None => ([], Continue (0, end_)) (* not reached: [None] is falsy *)
      end
    else window_of_dates args clock guild d in
  match resolved with
  | (trace, Continue (start, end_)) =>
    if end_ <? start
    then (trace ++ [SendEndBeforeStart], Return EndBeforeStart)
    else (trace, Continue (start, end_))
  | (trace, Return o) => (trace, Return o)
  end.

(** From [num_pixels > self.PIXEL_LIMIT_VIDEO] to the check of the usage of
    the past day. *)
Definition check_pixel_limits (guild num_pixels : Z) (clock : Clock)
    (d : Db) : list Effect * Flow unit :=
  if num_pixels >? PIXEL_LIMIT_VIDEO
  then ([SendTooManyResources], Return TooManyPixels)
  else
    let start := now_usage_start clock - 86400 in
    let end_ := now_usage_end clock in
    let usage := db.get_pixel_usage guild start end_ d in
    if usage >? PIXEL_LIMIT_DAY
    then ([QueryPixelUsage start end_; SendDailyLimit], Return DailyLimit)
    else ([QueryPixelUsage start end_], Continue tt).

(** [Snitchvis.render], for a command message of [author] in [guild]:
    the outcome, the effects in order, and the database afterwards. *)
Definition render (guild author : Z) (args : RenderArgs) (clock : Clock)
    (d : Db) : Outcome * list Effect * Db :=
  if truthy_export (export args)
     && negb (export_is (export args) "sql" || export_is (export args) "svis")
  then (BadExport, [SendExportMustBe], d)
  else
    match resolve_window args clock guild d with
    | (trace, Return o) => (o, trace, d)
    | (trace, Continue (start, end_)) =>
      let events :=
        get_events d guild author start end_ (users args) (groups args) in
      let trace := trace ++ [QueryEvents start end_] in
      match events with
      | [] => (NoEvents, trace ++ [SendNoEvents], d)
      | _ :: _ =>
        let trace := trace ++ [QueryAllEvents; QuerySnitches] in
        if export_is (export args) "sql"
        then (ExportedSql,
              trace ++ [SendExporting; ExportToSql events; SendSqlFile], d)
        else
          let num_pixels := duration args * fps args
                            * (size args * size args) in
          match check_pixel_limits guild num_pixels clock d with
          | (checks, Return o) => (o, trace ++ checks, d)
          | (checks, Continue _) =>
            let duration := duration args * 1000 in
            let trace :=
              trace ++ checks
              ++ [SendRendering;
                  RunSnitchVis (size args) (fps args) duration] in
            if run_snitch_vis events (size args) (fps args) duration
            then
              let trace := trace ++ [SendVideo; DeleteRendering] in
              let trace :=
                if negb (author =? 216008405758771200)
                then trace ++ [LogVideo] else trace in
              (Rendered,
               trace ++ [AddRenderHistory num_pixels (now_recorded clock)],
               db.add_render_history guild num_pixels
                 (now_recorded clock) d)
            else (RenderRaised, trace, d)
          end
      end
    end.

End Render.

(** ** Stand-ins for the collaborators, to run the model on examples *)

Definition toy_event (content : string) : Event :=
  {| event_username := content; event_snitch_name := None;
     event_namelayer_group := "group"; event_x := 0; event_y := 0;
     event_z := 0; event_t := 1000 |}.

(** A grammar of one rule: a message that starts with a backquote and a
    bracket is a snitch event. *)
Definition toy_parse (content : string) : option Event :=
  if String.prefix "`[" content then Some (toy_event content) else None.

Definition toy_guild_events (d : Db) (guild : Z) : list Event :=
  map snd (filter (fun me => message_guild (fst me) =? guild)
             (event (conn d))).

Definition toy_most_recent_event (d : Db) (guild : Z) : option Event :=
  fold_left (fun best e =>
               match best with
               | Some b => if event_t b <=? event_t e then Some e else Some b
               | None => Some e
               end) (toy_guild_events d guild) None.

Definition toy_get_events (d : Db) (guild author start end_ : Z)
    (users groups : list string) : list Event :=
  filter (fun e => (start <=? event_t e) && (event_t e <=? end_))
    (toy_guild_events d guild).

Definition toy : Collaborators :=
  {| Event_parse := toy_parse;
     most_recent_event := toy_most_recent_event;
     get_events := toy_get_events;
     run_snitch_vis := fun _ _ _ _ => true |}.

Definition msg (id channel : Z) (content : string) : Message :=
  {| message_id := id; message_channel := channel; message_guild := 1;
     message_content := content |}.

Definition row (channel : Z) (cursor : option Z) : SnitchChannel :=
  {| channel_id := channel; channel_guild := 1; last_indexed_id := cursor |}.

Definition tables (channels : list SnitchChannel) : Tables :=
  {| snitch_channel := channels; event := []; render_history := [] |}.

Definition fresh (channels : list SnitchChannel) : Db :=
  {| conn := tables channels; disk := tables channels |}.

Definition readable (messages : list Message) : TextChannel :=
  {| read_messages := true; history := Some messages |}.

Definition unreadable : TextChannel :=
  {| read_messages := false; history := None |}.

Definition ping : string :=
  "`[12:00:00]` `[group]` **player** is at snitch (1,2,3)".

Definition chat : string := "anyone around?".

Definition two_channels : Db := fresh [row 10 None; row 20 None].

(** Channel 10 holds three messages, channel 20 one; nothing else exists. *)
Definition example_discord : Discord :=
  fun channel =>
    if channel =? 10
    then readable [msg 5 10 ping; msg 4 10 chat; msg 3 10 ping]
    else if channel =? 20 then readable [msg 7 20 ping]
    else unreadable.

(** The bot may not read channel 10; channel 20 is readable. *)
Definition one_unreadable : Discord :=
  fun channel => if channel =? 10 then unreadable
                 else readable [msg 7 20 ping].

(** Reading the history of channel 10 raises. *)
Definition one_raising : Discord :=
  fun channel =>
    if channel =? 10 then {| read_messages := true; history := None |}
    else readable [msg 7 20 ping].

(** [on_ready] has just turned the deferral on, over [two_channels]. *)
Definition deferring : Snitchvis :=
  {| defer_indexing := true; indexing_queue := [];
     database := fresh [row 10 (Some 3); row 20 None];
     output := [PrintConnected];
     ready := PcBackfill [row 10 (Some 3); row 20 None] |}.

(** A guild with one indexed event whose usage of the past day is exactly
    the per-day limit: 50000 renders at the per-request limit. *)
Definition full_day : Db :=
  let tb :=
    {| snitch_channel := [row 10 (Some 5)];
       event := [(msg 5 10 ping, toy_event ping)];
       render_history :=
         repeat {| history_guild := 1; history_pixels := PIXEL_LIMIT_VIDEO;
                   history_timestamp := 999000 |}
           (Z.to_nat 50000) |} in
  {| conn := tb; disk := tb |}.

Definition quiet_day : Db :=
  let tb :=
    {| snitch_channel := [row 10 (Some 5)];
       event := [(msg 5 10 ping, toy_event ping)];
       render_history := [] |} in
  {| conn := tb; disk := tb |}.

Definition default_args : RenderArgs :=
  {| size := 700; fps := 20; duration := 5; users := []; past := None;
     start := None; end_ := None; groups := []; export := None |}.

Definition export_args : RenderArgs :=
  {| size := 700; fps := 20; duration := 5; users := []; past := None;
     start := None; end_ := None; groups := []; export := Some "sql" |}.

(** [--past 1h], alone and next to [--start] and [--end]. *)
Definition past_hour_args : RenderArgs :=
  {| size := 700; fps := 20; duration := 5; users := [];
     past := Some (PastDelta 3600); start := None; end_ := None;
     groups := []; export := None |}.

Definition past_and_dates_args : RenderArgs :=
  {| size := 700; fps := 20; duration := 5; users := [];
     past := Some (PastDelta 3600); start := Some 10; end_ := Some 20;
     groups := []; export := None |}.

Definition example_clock : Clock :=
  {| utcnow := 1000000; now_usage_start := 1000000;
     now_usage_end := 1000001; now_recorded := 1000002 |}.

From Stdlib Require Import Sorted Permutation.

(** ** The other commands of [main.py] *)

(** The newest message of a channel, when its history can be read and is
    not empty. *)
Definition newest (w : Discord) (channel : Z) : option Message :=
  match history (w channel) with
  | Some (m :: _) => Some m
  | _ => None
  end.

(** What [full_reindex] says itself, before it hands over to [index]. *)
Inductive ReindexNotice :=
| NoticeConfirmWithY
| NoticeDropping.

(** [DELETE FROM event WHERE guild_id = ?]; the guild of an event row is the
    guild of its message. *)
Definition delete_guild_events (guild : Z) (tb : Tables) : Tables :=
  {| snitch_channel := snitch_channel tb;
     event := filter (fun me => negb (message_guild (fst me) =? guild))
                (event tb);
     render_history := render_history tb |}.

Definition reset_cursor (guild : Z) (c : SnitchChannel) : SnitchChannel :=
  if channel_guild c =? guild
  then {| channel_id := channel_id c; channel_guild := channel_guild c;
          last_indexed_id := None |}
  else c.

(** [UPDATE snitch_channel SET last_indexed_id = null WHERE guild_id = ?]. *)
Definition reset_guild_cursors (guild : Z) (tb : Tables) : Tables :=
  {| snitch_channel := map (reset_cursor guild) (snitch_channel tb);
     event := event tb;
     render_history := render_history tb |}.

Section Reindex.

Context {collaborators : Collaborators}.

(** Whether [db.execute] commits what it executes; [db.py] is not part of
    the sources, and the facts below hold either way. *)
Variable execute_commits : bool.

(** [Snitchvis.full_reindex], in guild [guild]: its own notice, then the
    state and completion of [index]. *)
Definition full_reindex (w : Discord) (guild : Z) (y : bool) (s : Snitchvis)
  : list ReindexNotice * (Snitchvis * Completion) :=
  if negb y then ([NoticeConfirmWithY], (s, Returned))
  else
    let d := db.write (delete_guild_events guild) execute_commits
               (database s) in
    let d := db.write (reset_guild_cursors guild) execute_commits d in
    ([NoticeDropping], index w guild (with_database d s)).

End Reindex.

(** What an indexing run may do to the database and what it may not: the
    channel rows stay the same rows (same id, same guild, in the same
    order), a cursor that is set stays set, the event table only grows at
    its end and the render history is not touched. *)
Definition row_kept (c c' : SnitchChannel) : Prop :=
  channel_id c' = channel_id c /\ channel_guild c' = channel_guild c
  /\ (last_indexed_id c <> None -> last_indexed_id c' <> None).

Definition grows (d d' : Db) : Prop :=
  Forall2 row_kept (snitch_channel (conn d)) (snitch_channel (conn d'))
  /\ (exists new, event (conn d') = event (conn d) ++ new)
  /\ render_history (conn d') = render_history (conn d).

(** Every row of channel [channel] has its cursor at the newest message of
    the channel, when there is one. *)
Definition settled (w : Discord) (channel : Z) (d : Db) : Prop :=
  forall c m,
    In c (snitch_channel (conn d)) -> channel_id c = channel ->
    newest w channel = Some m ->
    last_indexed_id c = Some (message_id m).

Section Backfilled.

Context {collaborators : Collaborators}.

(** What the backfill of the row [c] finds: the events of the messages of
    its channel above its cursor. *)
Definition fresh_events (w : Discord) (c : SnitchChannel)
  : list (Message * Event) :=
  match history (w (channel_id c)) with
  | Some messages => scan (last_indexed_id c) messages
  | None => []
  end.

(** The events of the whole history of the channel of [c]. *)
Definition history_events (w : Discord) (c : SnitchChannel)
  : list (Message * Event) :=
  match history (w (channel_id c)) with
  | Some messages => events_of messages
  | None => []
  end.

(** What one turn of the second loop of [index] says. *)
Definition index_lines (w : Discord) (c : SnitchChannel) : list Output :=
  [SendIndexing (channel_id c);
   PrintIndexingChannel (channel_id c) (channel_guild c);
   SendAddedEvents (List.length (fresh_events w c)) (channel_id c)].

End Backfilled.

(** The same request with another [--export], another [--past]. *)
Definition with_export (export' : option string) (args : RenderArgs)
  : RenderArgs :=
  {| size := size args; fps := fps args; duration := duration args;
     users := users args; past := past args; start := start args;
     end_ := end_ args; groups := groups args; export := export' |}.

Definition with_past (past' : option Past) (args : RenderArgs)
  : RenderArgs :=
  {| size := size args; fps := fps args; duration := duration args;
     users := users args; past := past'; start := start args;
     end_ := end_ args; groups := groups args; export := export args |}.

(** *** The [events] command *)

Record EventsArgs := {
  events_name : option string;
  events_location : option (list string)
}.

Inductive EventsReply :=
| ReplyExactlyOne
| ReplyInvalidLocation (location : list string)
| ReplyInvalidX (x : string)
| ReplyInvalidY (y : string)
| ReplyInvalidZ (z : string)
| ReplyNoEvents
| ReplyEvents (rows : list (Message * Event))
| RaisedUnboundEvents.

(** [bool(location)]: [None] and the empty list are falsy. *)
Definition truthy_location (location : option (list string)) : bool :=
  match location with
  | Some (_ :: _) => true
  | _ => false
  end.

(** [bool(name) or name == ""]: any string, the empty one included. *)
Definition name_given (name : option string) : bool :=
  match name with
  | Some _ => true
  | None => false
  end.

(** SQL [column = ?] on a nullable text column: NULL equals nothing. *)
Definition sql_text_eq (column : option string) (value : string) : bool :=
  match column with
  | Some s => String.eqb s value
  | None => false
  end.

(** [ORDER BY t DESC], rows of equal [t] in table order (SQL leaves their
    order open). *)
Fixpoint insert_by_t (r : Message * Event) (rows : list (Message * Event))
  : list (Message * Event) :=
  match rows with
  | [] => [r]
  | r' :: rest =>
    if event_t (snd r) <? event_t (snd r')
    then r' :: insert_by_t r rest
    else r :: rows
  end.

Definition order_by_t_desc (rows : list (Message * Event))
  : list (Message * Event) :=
  fold_right insert_by_t [] rows.

(** The order of a result: a row is not older than the rows after it. *)
Definition newer_first (a b : Message * Event) : Prop :=
  event_t (snd b) <= event_t (snd a).

(** [SELECT * FROM event WHERE guild_id = ? AND ... ORDER BY t DESC
    LIMIT 10]. *)
Definition select_events (guild : Z) (where_ : Event -> bool) (d : Db)
  : list (Message * Event) :=
  firstn 10
    (order_by_t_desc
       (filter (fun me => (message_guild (fst me) =? guild) && where_ (snd me))
          (event (conn d)))).

(** [if not events] and the list that is sent otherwise. *)
Definition reply_of (rows : list (Message * Event)) : EventsReply :=
  match rows with
  | [] => ReplyNoEvents
  | _ :: _ => ReplyEvents rows
  end.

Section Events.

(** Python's [int] on a string; [None] stands for [ValueError]. *)
Variable int : string -> option Z.

(** The three conversions and the two queries by location; the parameters
    of the queries are [x, z, y] and [x, z]. *)
Definition events_at (guild : Z) (x : string) (y : option string)
    (z : string) (d : Db) : EventsReply :=
  match int x with
  | None => ReplyInvalidX x
  | Some x' =>
    let y' :=
      match y with
      | Some s => if negb (String.eqb s "")
                  then match int s with
                       | Some v => inr (Some v)
                       | None => inl (ReplyInvalidY s)
                       end
                  else inr None
      | None => inr None
      end in
    match y' with
    | inl reply => reply
    | inr y' =>
      match int z with
      | None => ReplyInvalidZ z
      | Some z' =>
        match y' with
        | Some y' =>
          reply_of (select_events guild
                      (fun e => (event_x e =? x') && (event_y e =? z')
                                && (event_z e =? y')) d)
        | None =>
          reply_of (select_events guild
                      (fun e => (event_x e =? x') && (event_y e =? z')) d)
        end
      end
    end
  end.

(** [Snitchvis.events], in guild [guild]. *)
Definition events (guild : Z) (args : EventsArgs) (d : Db) : EventsReply :=
  let name := events_name args in
  let location := events_location args in
  if negb (xorb (name_given name) (truthy_location location))
  then ReplyExactlyOne
  else
    match name with
    | Some name =>
      reply_of (select_events guild
                  (fun e => sql_text_eq (event_snitch_name e) name) d)
    | None =>
      if truthy_location location then
        match location with
        | Some [x; z] => events_at guild x None z d
        | Some [x; y; z] => events_at guild x (Some y) z d
        | Some l => ReplyInvalidLocation l
        | None => ReplyInvalidLocation [] (* not reached: [None] is falsy *)
        end
      else RaisedUnboundEvents (* [events] would be read unassigned *)
    end.

End Events.

(** *** [export_to_sql] *)

(** A snitch, with the twenty columns [export_to_sql] writes. *)
Record Snitch := {
  snitch_world : option string;
  snitch_x : Z;
  snitch_y : Z;
  snitch_z : Z;
  snitch_group_name : option string;
  snitch_type : option string;
  snitch_name : option string;
  snitch_dormant_ts : option Z;
  snitch_cull_ts : option Z;
  snitch_first_seen_ts : option Z;
  snitch_last_seen_ts : option Z;
  snitch_created_ts : option Z;
  snitch_created_by_uuid : option string;
  snitch_renamed_ts : option Z;
  snitch_renamed_by_uuid : option string;
  snitch_lost_jalist_access_ts : option Z;
  snitch_broken_ts : option Z;
  snitch_gone_ts : option Z;
  snitch_tags : option string;
  snitch_notes : option string
}.

(** The unique index [snitch_world_x_y_z_unique]: two rows collide when
    world, x, y and z are equal; a NULL world collides with nothing. *)
Definition same_place (a b : Snitch) : bool :=
  match snitch_world a, snitch_world b with
  | Some wa, Some wb =>
    String.eqb wa wb && (snitch_x a =? snitch_x b)
    && (snitch_y a =? snitch_y b) && (snitch_z a =? snitch_z b)
  | _, _ => false
  end.

(** [INSERT OR IGNORE INTO snitch]. *)
Definition insert_or_ignore (table : list Snitch) (snitch : Snitch)
  : list Snitch :=
  if existsb (same_place snitch) table then table else table ++ [snitch].

(** The exported database: its [snitch] and its [event] table. *)
Record Exported := {
  exported_snitch : list Snitch;
  exported_event : list Event
}.

(** [Snitchvis.export_to_sql] into the new file at [path]; [snitches] in
    the order the set is iterated. *)
Definition export_to_sql (snitches : list Snitch) (events : list Event)
  : Exported :=
  {| exported_snitch := fold_left insert_or_ignore snitches [];
     exported_event := fold_left (fun table e => table ++ [e]) events [] |}.

(** *** The query of [import_snitches] *)

(** [s * n] on strings. *)
Fixpoint string_times (s : string) (n : nat) : string :=
  match n with
  | O => ""
  | S n' => s ++ string_times s n'
  end.

(** [s[:-2]]. *)
Definition drop_last_two (s : string) : string :=
  substring 0 (String.length s - 2) s.

(** [group_filter] of [import_snitches]. *)
Definition group_filter (groups : list string) : string :=
  if existsb (fun group => String.eqb group "all") groups
  then "1"
  else "group_name IN (" ++ drop_last_two
                              (string_times "?, " (List.length groups)).

(** The text [import_snitches] hands to [cur.execute], with no parameters. *)
Definition import_query (groups : list string) : string :=
  "SELECT * FROM snitches_v2 WHERE " ++ group_filter groups.

Fixpoint count_char (c : Ascii.ascii) (s : string) : nat :=
  match s with
  | EmptyString => O
  | String c' s' =>
    (if Ascii.eqb c c' then 1 else 0) + count_char c s'
  end.

(** The first character of a string. *)
Definition char_of (s : string) : Ascii.ascii :=
  match s with
  | String c _ => c
  | EmptyString => Ascii.zero
  end.

(** *** Stand-ins for the examples of these commands *)

(** A stand-in for [int] that knows a few numerals. *)
Definition toy_int (s : string) : option Z :=
  if String.eqb s "1" then Some 1
  else if String.eqb s "2" then Some 2
  else if String.eqb s "3" then Some 3
  else if String.eqb s "-7" then Some (-7)
  else None.

Definition sighting (name : option string) (x y z t : Z) : Event :=
  {| event_username := "player"; event_snitch_name := name;
     event_namelayer_group := "group"; event_x := x; event_y := y;
     event_z := z; event_t := t |}.

(** A guild with three sightings at the gate, one at the door and one at an
    unnamed snitch. *)
Definition watched : Db :=
  let tb :=
    {| snitch_channel := [row 10 (Some 5)];
       event := [(msg 1 10 ping, sighting (Some "gate") 1 2 3 30);
                 (msg 2 10 ping, sighting (Some "door") 1 3 2 40);
                 (msg 3 10 ping, sighting (Some "gate") 1 2 3 50);
                 (msg 4 10 ping, sighting None 1 2 3 60);
                 (msg 5 10 ping, sighting (Some "gate") 1 2 3 20)];
       render_history := [] |} in
  {| conn := tb; disk := tb |}.

(** Startup stands before channel 10, and message 5 of that channel, which
    is in its history, has already been queued. *)
Definition queued_and_posted : Snitchvis :=
  {| defer_indexing := true; indexing_queue := [msg 5 10 ping];
     database := fresh [row 10 (Some 3)];
     output := [PrintConnected];
     ready := PcBackfill [row 10 (Some 3)] |}.

Definition plain_snitch (world : string) (x y z : Z) (name : string)
  : Snitch :=
  {| snitch_world := Some world; snitch_x := x; snitch_y := y;
     snitch_z := z; snitch_group_name := None; snitch_type := None;
     snitch_name := Some name; snitch_dormant_ts := None;
     snitch_cull_ts := None; snitch_first_seen_ts := None;
     snitch_last_seen_ts := None; snitch_created_ts := None;
     snitch_created_by_uuid := None; snitch_renamed_ts := None;
     snitch_renamed_by_uuid := None; snitch_lost_jalist_access_ts := None;
     snitch_broken_ts := None; snitch_gone_ts := None;
     snitch_tags := None; snitch_notes := None |}.

(** ** Facts about the database operations *)

Lemma write_uncommitted (f : Tables -> Tables) (d : Db) :
  db.write f false d = {| conn := f (conn d); disk := disk d |}.
Proof. reflexivity. Qed.

Lemma write_committed (f : Tables -> Tables) (d : Db) :
  db.write f true d = {| conn := f (conn d); disk := f (conn d) |}.
Proof. reflexivity. Qed.

Lemma find_set_cursor (channel id : Z) (rows : list SnitchChannel) :
  find (fun c => channel_id c =? channel) (map (db.set_cursor channel id) rows)
  = option_map (db.set_cursor channel id)
      (find (fun c => channel_id c =? channel) rows).
Proof.
  induction rows as [|r rows IH]; simpl; [reflexivity|].
  unfold db.set_cursor at 1.
  destruct (channel_id r =? channel) eqn:E; simpl; rewrite E; auto.
Qed.

Lemma set_cursor_known (channel id : Z) (rows : list SnitchChannel)
    (known : SnitchChannel) :
  find (fun c => channel_id c =? channel) rows = Some known ->
  last_indexed_id (db.set_cursor channel id known) = Some id.
Proof.
  intros F. apply find_some in F. destruct F as [_ E].
  unfold db.set_cursor. rewrite E. reflexivity.
Qed.

Section IndexingFacts.

Context {collaborators : Collaborators}.

Lemma add_events_conn (events : list (Message * Event)) (d : Db) :
  conn (add_events events d)
  = {| snitch_channel := snitch_channel (conn d);
       event := event (conn d) ++ events;
       render_history := render_history (conn d) |}.
Proof.
  unfold add_events. revert d.
  induction events as [|me events IH]; intros d; simpl.
  - rewrite app_nil_r. destruct (conn d); reflexivity.
  - rewrite IH. simpl. rewrite <- app_assoc. destruct me; reflexivity.
Qed.

Lemma add_events_disk (events : list (Message * Event)) (d : Db) :
  disk (add_events events d) = disk d.
Proof.
  unfold add_events. revert d.
  induction events as [|me events IH]; intros d; simpl; [reflexivity|].
  rewrite IH. reflexivity.
Qed.

Lemma scan_falsy (last_id : option Z) (messages : list Message) :
  truthy_id last_id = false -> scan last_id messages = events_of messages.
Proof.
  intros F. induction messages as [|m rest IH]; simpl; [reflexivity|].
  rewrite F. simpl. rewrite IH. reflexivity.
Qed.

Lemma scan_truthy (C : Z) (messages : list Message) :
  C <> 0 -> scan (Some C) messages = events_of (newer_than C messages).
Proof.
  intros NZ. induction messages as [|m rest IH]; simpl; [reflexivity|].
  replace (C =? 0) with false by (symmetry; apply Z.eqb_neq; exact NZ).
  simpl. destruct (message_id m <=? C); [reflexivity|].
  simpl. rewrite IH. reflexivity.
Qed.

Lemma newer_than_all (C : Z) (messages : list Message) :
  (forall m, In m messages -> C < message_id m) ->
  newer_than C messages = messages.
Proof.
  induction messages as [|m rest IH]; intros A; simpl; [reflexivity|].
  assert (C < message_id m) as L by (apply A; left; reflexivity).
  replace (message_id m <=? C) with false by (symmetry; apply Z.leb_gt; lia).
  rewrite IH; [reflexivity|]. intros m' I. apply A. right. exact I.
Qed.

Lemma newer_than_In (C : Z) (messages : list Message) (m : Message) :
  In m (newer_than C messages) -> C < message_id m /\ In m messages.
Proof.
  induction messages as [|m0 rest IH]; simpl; [tauto|].
  destruct (message_id m0 <=? C) eqn:E; simpl; [tauto|].
  apply Z.leb_gt in E. intros [->|I]; [split; [lia|auto]|].
  destruct (IH I). auto.
Qed.

Lemma events_of_In (messages : list Message) (m : Message) (e : Event) :
  In (m, e) (events_of messages) ->
  In m messages /\ Event_parse (message_content m) = Some e.
Proof.
  induction messages as [|m0 rest IH]; simpl; [tauto|].
  destruct (Event_parse (message_content m0)) eqn:P.
  - intros [Q|I].
    + inversion Q; subst. auto.
    + destruct (IH I). auto.
  - intros I. destruct (IH I). auto.
Qed.

Lemma scan_boundary (C : Z) (messages : list Message) :
  C <> 0 \/ (forall m, In m messages -> 0 < message_id m) ->
  scan (Some C) messages = events_of (newer_than C messages).
Proof.
  intros [NZ|Pos].
  - apply scan_truthy. exact NZ.
  - destruct (Z.eq_dec C 0) as [->|NZ]; [|apply scan_truthy; exact NZ].
    rewrite scan_falsy by reflexivity.
    rewrite newer_than_all; [reflexivity|exact Pos].
Qed.

(** C2. A live message in a channel that is not a snitch channel, or whose
    cursor is still null, is discarded by the live-processing path: the
    database (events and every cursor, pending and committed) is left as
    it was, also when the message comes in through [on_message] outside
    the startup deferral. *)
Theorem live_message_in_unindexed_channel_is_discarded :
  forall (message : Message) (d : Db),
    (db.get_snitch_channel (message_channel message) d = None \/
     exists c, db.get_snitch_channel (message_channel message) d = Some c
               /\ last_indexed_id c = None) ->
    maybe_index_message message d = d
    /\ forall s, database s = d -> defer_indexing s = false ->
                 on_message message s = s.
Proof.
  intros message d H.
  assert (maybe_index_message message d = d) as M.
  { unfold maybe_index_message.
    destruct H as [-> | [c [-> N]]]; [reflexivity|].
    rewrite N. reflexivity. }
  split; [exact M|].
  intros s D F. unfold on_message. rewrite F. simpl.
  rewrite D, M, <- D. destruct s; reflexivity.
Qed.

(** C10. A stored cursor of 0 is falsy, as null is: the live path discards
    every message of such a channel without touching the database, and
    backfill runs exactly as for a null cursor, parsing the whole
    history without stopping at a boundary. *)
Theorem zero_cursor_is_treated_as_null :
  (forall (message : Message) (d : Db) (c : SnitchChannel),
      db.get_snitch_channel (message_channel message) d = Some c ->
      last_indexed_id c = Some 0 ->
      maybe_index_message message d = d)
  /\ (forall messages : list Message,
         scan (Some 0) messages = events_of messages
         /\ scan None messages = events_of messages)
  /\ (forall (channel guild : Z) (discord_channel : TextChannel)
             (s : Snitchvis),
         index_channel {| channel_id := channel; channel_guild := guild;
                          last_indexed_id := Some 0 |} discord_channel s
         = index_channel {| channel_id := channel; channel_guild := guild;
                            last_indexed_id := None |} discord_channel s).
Proof.
  split; [|split].
  - intros message d c G Z0. unfold maybe_index_message.
    rewrite G, Z0. reflexivity.
  - intros messages. split; apply scan_falsy; reflexivity.
  - intros channel guild discord_channel s. unfold index_channel. simpl.
    destruct (history discord_channel) as [messages|]; [|reflexivity].
    rewrite !scan_falsy by reflexivity. reflexivity.
Qed.

(** C4. Backfill of a channel whose stored cursor is [C] scans the history
    up to the first message with an id at or below [C] and stops there:
    the events it returns and appends to the event table are those of the
    messages before that one, all with an id above [C]; when the newest
    message is already at or below the cursor, nothing is produced.
    (A cursor of 0 is falsy and sets no boundary; Discord ids are
    positive, so no message is at or below it.) *)
Theorem index_channel_exclusive_boundary :
  forall (channel : SnitchChannel) (discord_channel : TextChannel)
         (s : Snitchvis) (C : Z) (messages : list Message),
    last_indexed_id channel = Some C ->
    history discord_channel = Some messages ->
    C <> 0 \/ (forall m, In m messages -> 0 < message_id m) ->
    let events := events_of (newer_than C messages) in
    (exists s',
        index_channel channel discord_channel s = (s', Some events)
        /\ event (conn (database s')) = event (conn (database s)) ++ events
        /\ disk (database s') = disk (database s))
    /\ (forall m e, In (m, e) events -> C < message_id m)
    /\ (forall newest rest,
           messages = newest :: rest -> message_id newest <= C ->
           events = []).
Proof.
  intros channel discord_channel s C messages LC H B events.
  split; [|split].
  - unfold index_channel. rewrite H, LC.
    rewrite scan_boundary by exact B. fold events.
    eexists. split; [reflexivity|]. simpl.
    rewrite add_events_conn, add_events_disk. simpl.
    clear H B. subst events. destruct messages; simpl; auto.
  - intros m e I. apply events_of_In in I. destruct I as [I _].
    apply newer_than_In in I. tauto.
  - intros newest rest -> L. unfold events. simpl.
    replace (message_id newest <=? C) with true
      by (symmetry; apply Z.leb_le; exact L).
    reflexivity.
Qed.

(** C8. Backfill sets the cursor of the channel to the id of the newest
    message of the channel, whatever the grammar makes of that message or
    of any other; on a channel without messages it produces no event and
    leaves the database as it was. *)
Theorem index_channel_cursor_is_newest :
  forall (channel : SnitchChannel) (discord_channel : TextChannel)
         (s : Snitchvis),
    (forall newest rest known,
        history discord_channel = Some (newest :: rest) ->
        db.get_snitch_channel (channel_id channel) (database s)
        = Some known ->
        exists s' events known',
          index_channel channel discord_channel s = (s', Some events)
          /\ db.get_snitch_channel (channel_id channel) (database s')
             = Some known'
          /\ last_indexed_id known' = Some (message_id newest))
    /\ (history discord_channel = Some [] ->
        exists s',
          index_channel channel discord_channel s = (s', Some [])
          /\ database s' = database s).
Proof.
  intros channel discord_channel s. split.
  - intros newest rest known H K.
    unfold index_channel. rewrite H. simpl firstn. cbv iota.
    eexists. eexists.
    exists (db.set_cursor (channel_id channel) (message_id newest) known).
    split; [reflexivity|].
    unfold db.get_snitch_channel in *. simpl.
    rewrite add_events_conn. simpl. rewrite find_set_cursor, K. simpl.
    split; [reflexivity|].
    eapply set_cursor_known. exact K.
  - intros H. unfold index_channel. rewrite H. simpl.
    eexists. split; [reflexivity|]. reflexivity.
Qed.

End IndexingFacts.

(** ** The startup coordinator *)

Section CoordinatorFacts.

Context {collaborators : Collaborators}.

Lemma run_snoc (schedule : list Action) (a : Action) (s : Snitchvis) :
  run (schedule ++ [a]) s = step (run schedule s) a.
Proof. unfold run. rewrite fold_left_app. reflexivity. Qed.

Lemma arrivals_snoc (schedule : list Action) (a : Action) :
  arrivals (schedule ++ [a])
  = arrivals schedule ++ match a with Arrive m => [m] | Resume _ => [] end.
Proof.
  induction schedule as [|b schedule IH]; simpl.
  - destruct a; reflexivity.
  - destruct b; simpl; rewrite IH; reflexivity.
Qed.

Lemma resumes_snoc (schedule : list Action) (a : Action) :
  resumes (schedule ++ [a])
  = resumes schedule ++ match a with Arrive _ => [] | Resume w => [a] end.
Proof.
  induction schedule as [|b schedule IH]; simpl.
  - destruct a; reflexivity.
  - destruct b; simpl; rewrite IH; reflexivity.
Qed.

Lemma live_sequential_snoc (messages : list Message) (m : Message) (d : Db) :
  live_sequential (messages ++ [m]) d
  = maybe_index_message m (live_sequential messages d).
Proof. unfold live_sequential. rewrite fold_left_app. reflexivity. Qed.

(** [index_channel] reads and writes the database and the output only. *)
Lemma index_channel_frame (channel : SnitchChannel) (c : TextChannel)
    (s : Snitchvis) :
  defer_indexing (fst (index_channel channel c s)) = defer_indexing s
  /\ indexing_queue (fst (index_channel channel c s)) = indexing_queue s
  /\ ready (fst (index_channel channel c s)) = ready s.
Proof.
  unfold index_channel. destruct (history c); simpl; auto.
Qed.

Lemma index_channel_database (channel : SnitchChannel) (c : TextChannel)
    (s r : Snitchvis) :
  database s = database r ->
  database (fst (index_channel channel c s))
  = database (fst (index_channel channel c r))
  /\ snd (index_channel channel c s) = snd (index_channel channel c r).
Proof.
  intros E. unfold index_channel. destruct (history c); simpl; auto.
  rewrite E. auto.
Qed.

Lemma quiet_drain_step (w : Discord) (r : Snitchvis) :
  ready r = PcDrain \/ ready r = PcDone -> indexing_queue r = [] ->
  (ready (on_ready_step w r) = PcDrain \/ ready (on_ready_step w r) = PcDone)
  /\ indexing_queue (on_ready_step w r) = []
  /\ database (on_ready_step w r) = database r.
Proof.
  intros [P|P] Q; unfold on_ready_step; rewrite P; [rewrite Q|]; simpl; auto.
Qed.

Lemma simulates_arrive (s r : Snitchvis) (arrived : list Message)
    (m : Message) :
  simulates s r arrived -> simulates (on_message m s) r (arrived ++ [m]).
Proof.
  intros [A|[C|B]].
  - destruct A as (rest & Ps & Pr & Ds & Dr & E & Qs & Qr).
    left. exists rest. unfold on_message. rewrite Ds. simpl.
    rewrite Qs. auto 10.
  - destruct C as [P D]. right. left.
    unfold on_message. rewrite D. simpl. auto.
  - destruct B as (Pr & Qr & J & [[P D]|(P & D & Q)]).
    + right. right. unfold on_message. rewrite D. simpl.
      rewrite !live_sequential_snoc, J. auto 10.
    + right. right. unfold on_message. rewrite D. simpl.
      rewrite live_sequential_snoc, <- J, Q. simpl. auto 10.
Qed.

Lemma simulates_resume (s r : Snitchvis) (arrived : list Message)
    (w : Discord) :
  simulates s r arrived ->
  simulates (on_ready_step w s) (on_ready_step w r) arrived.
Proof.
  intros [A|[C|B]].
  - destruct A as (rest & Ps & Pr & Ds & Dr & E & Qs & Qr).
    unfold on_ready_step. rewrite Ps, Pr.
    destruct rest as [|channel rest].
    + right. right. simpl. rewrite Qs, E. auto 10.
    + destruct (negb (read_messages (w (channel_id channel)))).
      * left. exists rest. simpl. auto 10.
      * destruct (index_channel_frame channel (w (channel_id channel)) s)
          as (F1 & F2 & F3).
        destruct (index_channel_frame channel (w (channel_id channel)) r)
          as (G1 & G2 & G3).
        destruct (index_channel_database channel (w (channel_id channel)) s r E)
          as (D1 & D2).
        destruct (index_channel channel (w (channel_id channel)) s)
          as [s1 o1].
        destruct (index_channel channel (w (channel_id channel)) r)
          as [r1 o2].
        simpl in *. subst o2.
        destruct o1.
        -- left. exists rest. simpl.
           rewrite F1, F2, G1, G2, Ds, Dr, Qs, Qr. auto 10.
        -- right. left. simpl. rewrite F1, Ds. auto.
  - destruct C as [P D]. right. left.
    unfold on_ready_step. rewrite P. auto.
  - destruct B as (Pr & Qr & J & S).
    destruct (quiet_drain_step w r Pr Qr) as (Pr' & Qr' & Dr').
    right. right. rewrite Dr'.
    split; [exact Pr'|]. split; [exact Qr'|].
    destruct S as [[P D]|(P & D & Q)]; unfold on_ready_step; rewrite P.
    + destruct (indexing_queue s) as [|m q] eqn:Q; simpl.
      * rewrite Q. auto 10.
      * simpl in J. rewrite P, D. auto 10.
    + rewrite D, Q. rewrite Q in J. auto 10.
Qed.

Lemma simulates_run (schedule : list Action) (s : Snitchvis)
    (rest : list SnitchChannel) :
  defer_indexing s = true -> ready s = PcBackfill rest ->
  indexing_queue s = [] ->
  simulates (run schedule s) (run (resumes schedule) s) (arrivals schedule).
Proof.
  intros D P Q.
  induction schedule as [|a schedule IH] using rev_ind.
  - left. exists rest. simpl. auto 10.
  - rewrite run_snoc, arrivals_snoc, resumes_snoc.
    destruct a as [m|w]; simpl.
    + rewrite app_nil_r. apply simulates_arrive. exact IH.
    + rewrite run_snoc. simpl. rewrite app_nil_r.
      apply simulates_resume. exact IH.
Qed.

Lemma drain_finishes (w : Discord) (s : Snitchvis) :
  ready s = PcDrain ->
  let done :=
    run (repeat (Resume w) (S (List.length (indexing_queue s)))) s in
  defer_indexing done = false /\ ready done = PcDone
  /\ indexing_queue done = []
  /\ database done = live_sequential (indexing_queue s) (database s).
Proof.
  remember (indexing_queue s) as q eqn:Q. revert s Q.
  induction q as [|m q IH]; intros s Q P.
  - simpl. unfold on_ready_step. rewrite P, <- Q. simpl. auto.
  - cbn zeta in *.
    change (run (repeat (Resume w) (S (List.length (m :: q)))) s)
      with (run (repeat (Resume w) (S (List.length q)))
              (on_ready_step w s)).
    assert (on_ready_step w s
            = with_database (maybe_index_message m (database s))
                (with_queue q s)) as E
      by (unfold on_ready_step; rewrite P, <- Q; reflexivity).
    rewrite E. apply IH; simpl; auto.
Qed.

(** C1. Whatever the interleaving of message arrivals with the startup
    backfill and with the drain loop, once live processing has resumed
    the queue is empty and the database is the one obtained by running
    [on_ready] with no message arriving and then the live-processing path
    on the arrived messages one after the other in arrival order. The
    drain loop looks at the queue again after each message: while the
    queue holds a message the deferral stays on, and a drain left alone
    ends after as many resumptions as there are queued messages, plus the
    one that finds the queue empty. *)
Theorem deferred_messages_are_indexed_in_arrival_order :
  forall (schedule : list Action) (s : Snitchvis)
         (rest : list SnitchChannel),
    defer_indexing s = true -> ready s = PcBackfill rest ->
    indexing_queue s = [] ->
    let final := run schedule s in
    let quiet := run (resumes schedule) s in
    (defer_indexing final = false ->
     indexing_queue final = []
     /\ database final
        = live_sequential (arrivals schedule) (database quiet))
    /\ (forall w m q,
           ready final = PcDrain -> indexing_queue final = m :: q ->
           defer_indexing (on_ready_step w final) = true
           /\ ready (on_ready_step w final) = PcDrain
           /\ indexing_queue (on_ready_step w final) = q
           /\ database (on_ready_step w final)
              = maybe_index_message m (database final))
    /\ (forall w,
           ready final = PcDrain ->
           let done :=
             run (repeat (Resume w)
                    (S (List.length (indexing_queue final)))) final in
           defer_indexing done = false
           /\ database done
              = live_sequential (arrivals schedule) (database quiet)).
Proof.
  intros schedule s rest D P Q final quiet.
  pose proof (simulates_run schedule s rest D P Q) as S.
  fold final in S. fold quiet in S.
  split; [|split].
  - intros L. destruct S as [A|[C|B]].
    + destruct A as (? & _ & _ & Ds & _). congruence.
    + destruct C as [_ Ds]. congruence.
    + destruct B as (_ & _ & J & [[_ Ds]|(_ & _ & Qf)]); [congruence|].
      rewrite Qf in J. simpl in J. auto.
  - intros w m q Pf Qf. destruct S as [A|[C|B]].
    + destruct A as (? & Ps & _). congruence.
    + destruct C as [Ps _]. congruence.
    + destruct B as (_ & _ & _ & [[_ Ds]|(Ps & _)]); [|congruence].
      unfold on_ready_step. rewrite Pf, Qf. simpl. auto.
  - intros w Pf done.
    destruct (drain_finishes w final Pf) as (Dd & _ & _ & Bd).
    fold done in Dd, Bd. split; [exact Dd|].
    rewrite Bd. destruct S as [A|[C|B]].
    + destruct A as (? & Ps & _). congruence.
    + destruct C as [Ps _]. congruence.
    + destruct B as (_ & _ & J & _). exact J.
Qed.

End CoordinatorFacts.

(** ** Commits and failures of the backfill *)

Section BackfillFacts.

Context {collaborators : Collaborators}.

Lemma index_channel_disk (channel : SnitchChannel) (c : TextChannel)
    (s : Snitchvis) :
  disk (database (fst (index_channel channel c s))) = disk (database s).
Proof.
  unfold index_channel. destruct (history c) as [messages|]; simpl; auto.
  rewrite add_events_disk. destruct messages; reflexivity.
Qed.

Lemma index_channel_raises (channel : SnitchChannel) (c : TextChannel)
    (s : Snitchvis) :
  history c = None ->
  index_channel channel c s
  = (say (PrintIndexingChannel (channel_id channel) (channel_guild channel))
       s, None).
Proof. intros H. unfold index_channel. rewrite H. reflexivity. Qed.

(** C6, as the code has it. During the startup backfill a channel's events
    and cursor are written without a commit, so the committed tables are
    still the old ones when [on_ready] turns to the next channel (or ends
    on an exception); the one commit after the last channel makes the
    events and cursors of all channels durable together. The [index]
    command commits each channel before it turns to the next. *)
Theorem startup_backfill_commits_once_after_all_channels :
  forall (w : Discord) (s : Snitchvis),
    (forall channel rest,
        ready s = PcBackfill (channel :: rest) ->
        disk (database (on_ready_step w s)) = disk (database s)
        /\ (ready (on_ready_step w s) = PcBackfill rest
            \/ ready (on_ready_step w s) = PcRaised))
    /\ (ready s = PcBackfill [] ->
        ready (on_ready_step w s) = PcDrain
        /\ conn (database (on_ready_step w s)) = conn (database s)
        /\ disk (database (on_ready_step w s)) = conn (database s))
    /\ (forall channel s',
           index_one w channel s = (s', Returned) ->
           disk (database s') = conn (database s')).
Proof.
  intros w s. split; [|split].
  - intros channel rest P. unfold on_ready_step. rewrite P.
    destruct (negb (read_messages (w (channel_id channel)))); simpl; auto.
    pose proof (index_channel_disk channel (w (channel_id channel)) s) as D.
    destruct (index_channel channel (w (channel_id channel)) s) as [s1 [e|]];
      simpl in *; auto.
  - intros P. unfold on_ready_step. rewrite P. simpl. auto.
  - intros channel s' I. unfold index_one in I.
    destruct (index_channel channel (w (channel_id channel))
                (say (SendIndexing (channel_id channel)) s)) as [s1 [e|]];
      inversion I; subst; reflexivity.
Qed.

Lemma index_unreadable (w : Discord) (guild : Z) (s : Snitchvis)
    (channel : SnitchChannel) :
  first_unreadable w (db.get_snitch_channels (Some guild) (database s))
  = Some channel ->
  index w guild s
  = (say (SendNoReadPermission (channel_id channel))
       (say (SendIndexingFollowing
               (map channel_id
                  (db.get_snitch_channels (Some guild) (database s)))) s),
     Returned).
Proof.
  intros F. unfold index.
  destruct (db.get_snitch_channels (Some guild) (database s)) as [|c l];
    [discriminate|].
  rewrite F. reflexivity.
Qed.

(** C7, as the code has it. At startup a channel the bot has no permission
    to read is skipped with a printed warning, the database (its cursor
    included) is left as it was and [on_ready] goes on with the remaining
    channels. The [index] command, when one of the channels of the guild
    is unreadable, says so and returns without backfilling any channel,
    the database left as it was. When reading a history raises, nothing
    has been written for that channel. *)
Theorem unreadable_channel_is_skipped_at_startup_only :
  forall (w : Discord) (s : Snitchvis),
    (forall channel rest,
        ready s = PcBackfill (channel :: rest) ->
        read_messages (w (channel_id channel)) = false ->
        on_ready_step w s
        = with_ready (PcBackfill rest)
            (say (PrintCouldntIndex (channel_id channel)
                    (channel_guild channel)) s))
    /\ (forall guild channel,
           first_unreadable w
             (db.get_snitch_channels (Some guild) (database s))
           = Some channel ->
           read_messages (w (channel_id channel)) = false
           /\ snd (index w guild s) = Returned
           /\ database (fst (index w guild s)) = database s
           /\ In (SendNoReadPermission (channel_id channel))
                (output (fst (index w guild s))))
    /\ (forall channel,
           history (w (channel_id channel)) = None ->
           snd (index_channel channel (w (channel_id channel)) s) = None
           /\ database (fst (index_channel channel
                               (w (channel_id channel)) s))
              = database s).
Proof.
  intros w s. split; [|split].
  - intros channel rest P R. unfold on_ready_step. rewrite P, R.
    reflexivity.
  - intros guild channel F. rewrite (index_unreadable w guild s channel F).
    simpl. split; [|split; [reflexivity|split; [reflexivity|]]].
    + unfold first_unreadable in F. apply find_some in F.
      destruct F as [_ F]. apply negb_true_iff in F. exact F.
    + apply in_or_app. right. left. reflexivity.
  - intros channel H. rewrite index_channel_raises by exact H.
    simpl. auto.
Qed.

End BackfillFacts.

(** ** The render command: window, export and limits *)

Section RenderFacts.

Context {collaborators : Collaborators}.

Lemma window_of_dates_cases (args : RenderArgs) (clock : Clock) (guild : Z)
    (d : Db) (trace : list Effect) (r : Flow (Z * Z)) :
  window_of_dates args clock guild d = (trace, r) ->
  (r = Return NoRecentEvent /\ trace = [QueryMostRecentEvent; SendNoEvents])
  \/ (exists a b, r = Continue (a, b) /\ a <= b
                  /\ trace = [QueryMostRecentEvent])
  \/ (exists a b, r = Continue (a, b) /\ trace = []).
Proof.
  unfold window_of_dates.
  destruct (start args) as [a|], (end_ args) as [b|];
    try solve [intros E; inversion E; subst; right; right; eauto].
  destruct (most_recent_event d guild) as [e|]; intros E; inversion E; subst.
  - right. left. exists (event_t e - 30 * 60), (event_t e).
    split; [reflexivity|]. split; [lia|reflexivity].
  - left. auto.
Qed.

Lemma resolve_window_cases (args : RenderArgs) (clock : Clock) (guild : Z)
    (d : Db) (trace : list Effect) (r : Flow (Z * Z)) :
  resolve_window args clock guild d = (trace, r) ->
  (r = Return NoRecentEvent /\ trace = [QueryMostRecentEvent; SendNoEvents])
  \/ (r = Return EndBeforeStart /\ trace = [SendEndBeforeStart])
  \/ (exists a b, r = Continue (a, b) /\ a <= b
                  /\ (trace = [] \/ trace = [QueryMostRecentEvent])).
Proof.
  unfold resolve_window.
  destruct (truthy_past (past args)).
  - assert (forall a b : Z,
               (if b <? a
                then ([] ++ [SendEndBeforeStart], Return EndBeforeStart)
                else ([], Continue (a, b))) = (trace, r) ->
               (r = Return NoRecentEvent
                /\ trace = [QueryMostRecentEvent; SendNoEvents])
               \/ (r = Return EndBeforeStart /\ trace = [SendEndBeforeStart])
               \/ (exists a b, r = Continue (a, b) /\ a <= b
                     /\ (trace = [] \/ trace = [QueryMostRecentEvent])))
      as K.
    { intros a b. destruct (b <? a) eqn:L; intros E; inversion E; subst.
      - right. left. auto.
      - right. right. apply Z.ltb_ge in L. eauto 10. }
    destruct (past args) as [[|secs]|]; apply K.
  - destruct (window_of_dates args clock guild d) as [tr f] eqn:W.
    apply window_of_dates_cases in W.
    destruct W as [[-> ->]|[(a & b & -> & L & ->)|(a & b & -> & ->)]].
    + intros E; inversion E; subst. left. auto.
    + replace (b <? a) with false by (symmetry; apply Z.ltb_ge; lia).
      intros E; inversion E; subst. right. right. eauto 10.
    + destruct (b <? a) eqn:L; intros E; inversion E; subst.
      * right. left. auto.
      * right. right. apply Z.ltb_ge in L. eauto 10.
Qed.

Lemma check_pixel_limits_cases (guild num_pixels : Z) (clock : Clock)
    (d : Db) :
  let start := now_usage_start clock - 86400 in
  let end_ := now_usage_end clock in
  let usage := db.get_pixel_usage guild start end_ d in
  (num_pixels > PIXEL_LIMIT_VIDEO
   /\ check_pixel_limits guild num_pixels clock d
      = ([SendTooManyResources], Return TooManyPixels))
  \/ (num_pixels <= PIXEL_LIMIT_VIDEO /\ usage > PIXEL_LIMIT_DAY
      /\ check_pixel_limits guild num_pixels clock d
         = ([QueryPixelUsage start end_; SendDailyLimit], Return DailyLimit))
  \/ (num_pixels <= PIXEL_LIMIT_VIDEO /\ usage <= PIXEL_LIMIT_DAY
      /\ check_pixel_limits guild num_pixels clock d
         = ([QueryPixelUsage start end_], Continue tt)).
Proof.
  intros start end_ usage. unfold check_pixel_limits.
  fold start. fold end_. fold usage.
  destruct (num_pixels >? PIXEL_LIMIT_VIDEO) eqn:V.
  - left. split; [apply Z.gtb_gt; exact V|reflexivity].
  - assert (num_pixels <= PIXEL_LIMIT_VIDEO) as LV.
    { rewrite Z.gtb_ltb in V. apply Z.ltb_ge in V. exact V. }
    destruct (usage >? PIXEL_LIMIT_DAY) eqn:U.
    + right. left. split; [exact LV|].
      split; [apply Z.gtb_gt; exact U|reflexivity].
    + right. right. split; [exact LV|].
      rewrite Z.gtb_ltb in U. apply Z.ltb_ge in U. split; [exact U|].
      reflexivity.
Qed.

(** Every way [render] can end, with its effects and its database. *)
Lemma render_cases (guild author : Z) (args : RenderArgs) (clock : Clock)
    (d : Db) (o : Outcome) (trace : list Effect) (d' : Db) :
  let num_pixels := duration args * fps args * (size args * size args) in
  let usage_start := now_usage_start clock - 86400 in
  let usage_end := now_usage_end clock in
  let usage := db.get_pixel_usage guild usage_start usage_end d in
  render guild author args clock d = (o, trace, d') ->
  (o = BadExport /\ trace = [SendExportMustBe] /\ d' = d
   /\ export_is (export args) "sql" = false)
  \/ (o = NoRecentEvent /\ trace = [QueryMostRecentEvent; SendNoEvents]
      /\ d' = d)
  \/ (o = EndBeforeStart /\ trace = [SendEndBeforeStart] /\ d' = d)
  \/ (exists pre a b,
         (pre = [] \/ pre = [QueryMostRecentEvent])
         /\ resolve_window args clock guild d = (pre, Continue (a, b))
         /\ let events :=
              get_events d guild author a b (users args) (groups args) in
            (o = NoEvents /\ events = []
             /\ trace = pre ++ [QueryEvents a b; SendNoEvents] /\ d' = d)
            \/ (o = ExportedSql /\ events <> []
                /\ export_is (export args) "sql" = true
                /\ trace = pre ++ [QueryEvents a b; QueryAllEvents;
                                   QuerySnitches; SendExporting;
                                   ExportToSql events; SendSqlFile]
                /\ d' = d)
            \/ (o = TooManyPixels /\ events <> []
                /\ export_is (export args) "sql" = false
                /\ num_pixels > PIXEL_LIMIT_VIDEO
                /\ trace = pre ++ [QueryEvents a b; QueryAllEvents;
                                   QuerySnitches; SendTooManyResources]
                /\ d' = d)
            \/ (o = DailyLimit /\ events <> []
                /\ export_is (export args) "sql" = false
                /\ num_pixels <= PIXEL_LIMIT_VIDEO
                /\ usage > PIXEL_LIMIT_DAY
                /\ trace = pre ++ [QueryEvents a b; QueryAllEvents;
                                   QuerySnitches;
                                   QueryPixelUsage usage_start usage_end;
                                   SendDailyLimit]
                /\ d' = d)
            \/ (o = RenderRaised /\ events <> []
                /\ export_is (export args) "sql" = false
                /\ num_pixels <= PIXEL_LIMIT_VIDEO
                /\ usage <= PIXEL_LIMIT_DAY
                /\ run_snitch_vis events (size args) (fps args)
                     (duration args * 1000) = false
                /\ trace = pre ++ [QueryEvents a b; QueryAllEvents;
                                   QuerySnitches;
                                   QueryPixelUsage usage_start usage_end;
                                   SendRendering;
                                   RunSnitchVis (size args) (fps args)
                                     (duration args * 1000)]
                /\ d' = d)
            \/ (o = Rendered /\ events <> []
                /\ export_is (export args) "sql" = false
                /\ num_pixels <= PIXEL_LIMIT_VIDEO
                /\ usage <= PIXEL_LIMIT_DAY
                /\ run_snitch_vis events (size args) (fps args)
                     (duration args * 1000) = true
                /\ trace = (pre ++ [QueryEvents a b; QueryAllEvents;
                                    QuerySnitches;
                                    QueryPixelUsage usage_start usage_end;
                                    SendRendering;
                                    RunSnitchVis (size args) (fps args)
                                      (duration args * 1000);
                                    SendVideo; DeleteRendering]
                            ++ (if negb (author =? 216008405758771200)
                                then [LogVideo] else []))
                           ++ [AddRenderHistory num_pixels
                                 (now_recorded clock)]
                /\ d' = db.add_render_history guild num_pixels
                          (now_recorded clock) d)).
Proof.
  intros num_pixels usage_start usage_end usage. unfold render.
  destruct (truthy_export (export args)
            && negb (export_is (export args) "sql"
                     || export_is (export args) "svis")) eqn:BE.
  { intros E; inversion E; subst. left.
    apply andb_true_iff in BE. destruct BE as [_ BE].
    apply negb_true_iff in BE. apply orb_false_iff in BE. tauto. }
  destruct (resolve_window args clock guild d) as [pre r] eqn:RW.
  destruct (resolve_window_cases args clock guild d pre r RW)
    as [[-> ->]|[[-> ->]|(a & b & -> & L & P)]].
  { intros E; inversion E; subst. right. left. auto. }
  { intros E; inversion E; subst. right. right. left. auto. }
  intros E. right. right. right. exists pre, a, b.
  split; [exact P|]. split; [reflexivity|]. cbv zeta. revert E.
  destruct (get_events d guild author a b (users args) (groups args))
    as [|e0 events] eqn:GE.
  { intros E; inversion E; subst. left.
    rewrite <- app_assoc. simpl. auto. }
  assert (e0 :: events <> []) as NE by discriminate.
  destruct (export_is (export args) "sql") eqn:EX.
  { intros E; inversion E; subst. right. left.
    rewrite <- !app_assoc. simpl. auto 10. }
  fold num_pixels.
  destruct (check_pixel_limits_cases guild num_pixels clock d)
    as [(V & ->)|[(V & U & ->)|(V & U & ->)]].
  { intros E; inversion E; subst. right. right. left.
    rewrite <- !app_assoc. simpl. auto 10. }
  { intros E; inversion E; subst. right. right. right. left.
    rewrite <- !app_assoc. simpl. auto 10. }
  destruct (run_snitch_vis (e0 :: events) (size args) (fps args)
              (duration args * 1000)) eqn:RUN.
  - intros E. right. right. right. right. right.
    destruct (negb (author =? 216008405758771200));
      inversion E; subst; rewrite <- !app_assoc; simpl;
      repeat split; auto.
  - intros E; inversion E; subst. right. right. right. right. left.
    rewrite <- !app_assoc. simpl. repeat split; auto.
Qed.

(** C3, as the code has it. A request whose cost exceeds the per-request
    limit is refused, and so is a request made when the usage recorded
    over the past 24 hours alone (the cost of the request not added)
    exceeds the per-day limit; neither refusal, nor any other outcome
    short of a completed render, changes the database or appends a usage
    record. A completed render appends one record of its cost, after the
    renderer has returned and the video has been sent. *)
Theorem render_admission_compares_past_usage_alone :
  forall (guild author : Z) (args : RenderArgs) (clock : Clock) (d : Db)
         (o : Outcome) (trace : list Effect) (d' : Db),
    let num_pixels := duration args * fps args * (size args * size args) in
    let usage :=
      db.get_pixel_usage guild (now_usage_start clock - 86400)
        (now_usage_end clock) d in
    render guild author args clock d = (o, trace, d') ->
    (num_pixels > PIXEL_LIMIT_VIDEO ->
     snd (check_pixel_limits guild num_pixels clock d) = Return TooManyPixels
     /\ o <> Rendered /\ o <> RenderRaised /\ o <> DailyLimit /\ d' = d)
    /\ (num_pixels <= PIXEL_LIMIT_VIDEO -> usage > PIXEL_LIMIT_DAY ->
        snd (check_pixel_limits guild num_pixels clock d) = Return DailyLimit
        /\ o <> Rendered /\ o <> RenderRaised /\ d' = d)
    /\ (num_pixels <= PIXEL_LIMIT_VIDEO -> usage <= PIXEL_LIMIT_DAY ->
        snd (check_pixel_limits guild num_pixels clock d) = Continue tt
        /\ o <> TooManyPixels /\ o <> DailyLimit)
    /\ (o <> Rendered ->
        d' = d /\ forall p t, ~ In (AddRenderHistory p t) trace)
    /\ (o = Rendered ->
        render_history (conn d')
        = render_history (conn d)
          ++ [{| history_guild := guild; history_pixels := num_pixels;
                 history_timestamp := now_recorded clock |}]
        /\ exists before,
            trace = before
                    ++ [AddRenderHistory num_pixels (now_recorded clock)]
            /\ In (RunSnitchVis (size args) (fps args)
                     (duration args * 1000)) before
            /\ In SendVideo before
            /\ forall p t, ~ In (AddRenderHistory p t) before).
Proof.
  intros guild author args clock d o trace d' num_pixels usage R.
  pose proof (check_pixel_limits_cases guild num_pixels clock d) as CK.
  cbv zeta in CK. fold usage in CK.
  apply render_cases in R. cbv zeta in R.
  fold num_pixels in R. fold usage in R.
  destruct R as [(-> & -> & -> & _)|[(-> & -> & ->)|[(-> & -> & ->)|
    (pre & a & b & P & _ & R)]]].
  1-3: repeat split; intros; try discriminate; try congruence;
       try (destruct CK as [(? & ->)|[(? & ? & ->)|(? & ? & ->)]];
            simpl; solve [reflexivity | lia]);
       try (simpl; intuition discriminate).
  destruct R as [(-> & _ & -> & ->)|[(-> & _ & _ & -> & ->)|
    [(-> & _ & _ & V & -> & ->)|[(-> & _ & _ & V & U & -> & ->)|
    [(-> & _ & _ & V & U & _ & -> & ->)|
     (-> & _ & _ & V & U & _ & -> & ->)]]]]].
  1-5: repeat split; intros; try discriminate; try congruence; try lia;
       try (destruct CK as [(? & ->)|[(? & ? & ->)|(? & ? & ->)]];
            simpl; solve [reflexivity | lia]);
       try (intros I; apply in_app_or in I; destruct I as [I|I];
            [destruct P; subst; simpl in I; intuition discriminate
            |simpl in I; intuition discriminate]).
  repeat split; intros; try discriminate; try congruence; try lia;
    try (destruct CK as [(? & ->)|[(? & ? & ->)|(? & ? & ->)]];
         simpl; solve [reflexivity | lia]).
  eexists. split; [reflexivity|].
  split; [|split].
  - apply in_or_app. right. apply in_or_app. left. simpl. auto 10.
  - apply in_or_app. right. apply in_or_app. left. simpl. auto 10.
  - intros p t I. apply in_app_or in I. destruct I as [I|I].
    + destruct P; subst; simpl in I; intuition discriminate.
    + apply in_app_or in I. destruct I as [I|I].
      * simpl in I. intuition discriminate.
      * destruct (negb (author =? 216008405758771200)); simpl in I;
          intuition discriminate.
Qed.

(** C5, as the code has it. Without [--past] (none given, or a zero
    duration): with neither date given the window ends at the
    most recent event of the guild and starts 30 minutes earlier; with
    only a start it ends now; with only an end it starts at the epoch;
    with both they are used as given. A window whose end is before its
    start is refused, and then [render] has done nothing but send the
    refusal: no query has run and the database is untouched. *)
Theorem render_window_defaults :
  forall (guild author : Z) (args : RenderArgs) (clock : Clock) (d : Db),
    truthy_past (past args) = false ->
    (forall e,
        start args = None -> end_ args = None ->
        most_recent_event d guild = Some e ->
        resolve_window args clock guild d
        = ([QueryMostRecentEvent],
           Continue (event_t e - 30 * 60, event_t e)))
    /\ (forall a,
           start args = Some a -> end_ args = None ->
           resolve_window args clock guild d
           = if utcnow clock <? a
             then ([SendEndBeforeStart], Return EndBeforeStart)
             else ([], Continue (a, utcnow clock)))
    /\ (forall b,
           start args = None -> end_ args = Some b ->
           resolve_window args clock guild d
           = if b <? 0
             then ([SendEndBeforeStart], Return EndBeforeStart)
             else ([], Continue (0, b)))
    /\ (forall a b,
           start args = Some a -> end_ args = Some b ->
           resolve_window args clock guild d
           = if b <? a
             then ([SendEndBeforeStart], Return EndBeforeStart)
             else ([], Continue (a, b)))
    /\ (forall o trace d',
           render guild author args clock d = (o, trace, d') ->
           o = EndBeforeStart ->
           trace = [SendEndBeforeStart] /\ d' = d)
    /\ (forall trace,
           truthy_export (export args)
           && negb (export_is (export args) "sql"
                    || export_is (export args) "svis") = false ->
           resolve_window args clock guild d
           = (trace, Return EndBeforeStart) ->
           render guild author args clock d
           = (EndBeforeStart, [SendEndBeforeStart], d)).
Proof.
  intros guild author args clock d NP.
  split; [|split; [|split; [|split; [|split]]]].
  - intros e S E M. unfold resolve_window, window_of_dates.
    rewrite NP, S, E, M.
    replace (event_t e <? event_t e - 30 * 60) with false
      by (symmetry; apply Z.ltb_ge; lia).
    reflexivity.
  - intros a S E. unfold resolve_window, window_of_dates.
    rewrite NP, S, E. destruct (utcnow clock <? a); reflexivity.
  - intros b S E. unfold resolve_window, window_of_dates.
    rewrite NP, S, E. destruct (b <? 0); reflexivity.
  - intros a b S E. unfold resolve_window, window_of_dates.
    rewrite NP, S, E. destruct (b <? a); reflexivity.
  - intros o trace d' R O. apply render_cases in R. cbv zeta in R.
    destruct R as [(-> & _)|[(-> & _)|[(_ & -> & ->)|
      (pre & a & b & _ & _ & R)]]]; try discriminate; auto.
    subst o. decompose [and or] R; discriminate.
  - intros trace BE RW. unfold render. rewrite BE, RW.
    apply resolve_window_cases in RW.
    destruct RW as [[E _]|[[_ ->]|(a & b & E & _)]];
      try discriminate. reflexivity.
Qed.

(** C9. A render request with [--export sql] ends without a look at the
    pixel limits: whatever the size, frame rate and duration, it returns
    the same result, the usage of the past day is not queried, no refusal
    for a limit is sent, nothing is rendered, no usage record is appended
    and the database is left as it was; when the window is valid and
    events match, it exports them and returns. *)
Theorem export_sql_bypasses_the_limits :
  forall (guild author : Z) (args : RenderArgs) (clock : Clock) (d : Db)
         (o : Outcome) (trace : list Effect) (d' : Db),
    export args = Some "sql" ->
    render guild author args clock d = (o, trace, d') ->
    d' = d
    /\ (o = NoRecentEvent \/ o = EndBeforeStart \/ o = NoEvents
        \/ o = ExportedSql)
    /\ (forall a b, ~ In (QueryPixelUsage a b) trace)
    /\ (forall p t, ~ In (AddRenderHistory p t) trace)
    /\ (forall s f u, ~ In (RunSnitchVis s f u) trace)
    /\ ~ In SendTooManyResources trace
    /\ ~ In SendDailyLimit trace
    /\ (forall size' fps' duration',
           render guild author (with_quality size' fps' duration' args)
             clock d
           = (o, trace, d'))
    /\ (forall pre a b,
           resolve_window args clock guild d = (pre, Continue (a, b)) ->
           get_events d guild author a b (users args) (groups args)
           <> [] ->
           o = ExportedSql
           /\ trace
              = pre ++ [QueryEvents a b; QueryAllEvents; QuerySnitches;
                        SendExporting;
                        ExportToSql (get_events d guild author a b
                                       (users args) (groups args));
                        SendSqlFile]).
Proof.
  intros guild author args clock d o trace d' X R.
  assert (export_is (export args) "sql" = true) as XS
    by (rewrite X; reflexivity).
  assert (forall size' fps' duration',
             render guild author (with_quality size' fps' duration' args)
               clock d = (o, trace, d')) as Q.
  { intros size' fps' duration'. rewrite <- R. unfold render.
    change (resolve_window (with_quality size' fps' duration' args)
              clock guild d) with (resolve_window args clock guild d).
    simpl. rewrite X. simpl.
    destruct (resolve_window args clock guild d) as [tr [[a b]|o0]];
      [|reflexivity].
    destruct (get_events d guild author a b (users args) (groups args));
      reflexivity. }
  assert (forall pre a b,
             resolve_window args clock guild d = (pre, Continue (a, b)) ->
             get_events d guild author a b (users args) (groups args)
             <> [] ->
             o = ExportedSql
             /\ trace
                = pre ++ [QueryEvents a b; QueryAllEvents; QuerySnitches;
                          SendExporting;
                          ExportToSql (get_events d guild author a b
                                         (users args) (groups args));
                          SendSqlFile]) as L.
  { intros pre a b RW GE. unfold render in R.
    rewrite XS, RW in R. rewrite X in R. simpl in R.
    destruct (get_events d guild author a b (users args) (groups args));
      [contradiction|].
    inversion R. rewrite <- !app_assoc. simpl. auto. }
  apply render_cases in R. cbv zeta in R.
  destruct R as [(_ & _ & _ & B)|[(-> & -> & ->)|[(-> & -> & ->)|
    (pre & a & b & P & RW & R)]]]; [congruence| | |].
  1-2: repeat match goal with |- _ /\ _ => split end; auto;
       try (simpl; intuition discriminate).
  destruct R as [(-> & _ & -> & ->)|[(-> & _ & _ & -> & ->)|R]].
  1-2: repeat match goal with |- _ /\ _ => split end; auto;
       intros; intro I; apply in_app_or in I;
       (destruct I as [I|I];
        [destruct P; subst; simpl in I; intuition discriminate
        |simpl in I; intuition discriminate]).
  decompose [and or] R; congruence.
Qed.

End RenderFacts.

(** ** What indexing keeps *)

Lemma row_kept_refl (c : SnitchChannel) : row_kept c c.
Proof. unfold row_kept. auto. Qed.

Lemma row_kept_trans (a b c : SnitchChannel) :
  row_kept a b -> row_kept b c -> row_kept a c.
Proof.
  unfold row_kept. intros (I1 & G1 & N1) (I2 & G2 & N2).
  repeat split; try congruence. auto.
Qed.

Lemma rows_kept_refl (rows : list SnitchChannel) : Forall2 row_kept rows rows.
Proof. induction rows; constructor; auto using row_kept_refl. Qed.

Lemma rows_kept_trans (a b c : list SnitchChannel) :
  Forall2 row_kept a b -> Forall2 row_kept b c -> Forall2 row_kept a c.
Proof.
  intros H. revert c. induction H; intros c' K; inversion K; subst;
    constructor; eauto using row_kept_trans.
Qed.

Lemma rows_kept_map (f : SnitchChannel -> SnitchChannel)
    (rows : list SnitchChannel) :
  (forall c, row_kept c (f c)) -> Forall2 row_kept rows (map f rows).
Proof. intros F. induction rows; simpl; constructor; auto. Qed.

Lemma row_kept_set_cursor (channel id : Z) (c : SnitchChannel) :
  row_kept c (db.set_cursor channel id c).
Proof.
  unfold row_kept, db.set_cursor.
  destruct (channel_id c =? channel); simpl; auto.
  repeat split; auto. discriminate.
Qed.

Lemma grows_refl (d : Db) : grows d d.
Proof.
  unfold grows. split; [apply rows_kept_refl|]. split; [|reflexivity].
  exists []. rewrite app_nil_r. reflexivity.
Qed.

Lemma grows_trans (a b c : Db) : grows a b -> grows b c -> grows a c.
Proof.
  unfold grows. intros (R1 & (n1 & E1) & H1) (R2 & (n2 & E2) & H2).
  split; [eauto using rows_kept_trans|]. split; [|congruence].
  exists (n1 ++ n2). rewrite E2, E1, app_assoc. reflexivity.
Qed.

Lemma grows_same_conn (d d' : Db) : conn d' = conn d -> grows d d'.
Proof.
  intros E. unfold grows. rewrite E.
  split; [apply rows_kept_refl|]. split; [|reflexivity].
  exists []. rewrite app_nil_r. reflexivity.
Qed.

Lemma conn_write (f : Tables -> Tables) (b : bool) (d : Db) :
  conn (db.write f b d) = f (conn d).
Proof. destruct b; reflexivity. Qed.

Lemma grows_add_event (m : Message) (e : Event) (b : bool) (d : Db) :
  grows d (db.add_event m e b d).
Proof.
  unfold grows, db.add_event. rewrite conn_write. simpl.
  split; [apply rows_kept_refl|]. split; [|reflexivity]. eauto.
Qed.

Lemma grows_update_last_indexed (channel id : Z) (b : bool) (d : Db) :
  grows d (db.update_last_indexed channel id b d).
Proof.
  unfold grows, db.update_last_indexed. rewrite conn_write. simpl.
  split; [apply rows_kept_map; apply row_kept_set_cursor|].
  split; [|reflexivity]. exists []. rewrite app_nil_r. reflexivity.
Qed.

Section KeptByIndexing.

Context {collaborators : Collaborators}.

Lemma grows_maybe_index_message (m : Message) (d : Db) :
  grows d (maybe_index_message m d).
Proof.
  unfold maybe_index_message.
  destruct (db.get_snitch_channel (message_channel m) d) as [c|];
    [|apply grows_refl].
  destruct (negb (truthy_id (last_indexed_id c))); [apply grows_refl|].
  destruct (Event_parse (message_content m)) as [e|]; [|apply grows_refl].
  eapply grows_trans; [apply grows_add_event|].
  apply grows_update_last_indexed.
Qed.

Lemma grows_add_events (events : list (Message * Event)) (d : Db) :
  grows d (add_events events d).
Proof.
  unfold grows. rewrite add_events_conn. simpl.
  split; [apply rows_kept_refl|]. split; [|reflexivity]. eauto.
Qed.

Lemma grows_index_channel (channel : SnitchChannel) (c : TextChannel)
    (s : Snitchvis) :
  grows (database s) (database (fst (index_channel channel c s))).
Proof.
  unfold index_channel. destruct (history c) as [messages|];
    cbn [fst with_database database say]; [|apply grows_refl].
  eapply grows_trans; [|apply grows_add_events].
  destruct messages; cbn [firstn];
    [apply grows_refl|apply grows_update_last_indexed].
Qed.

Lemma grows_on_ready_step (w : Discord) (s : Snitchvis) :
  grows (database s) (database (on_ready_step w s)).
Proof.
  unfold on_ready_step. destruct (ready s) as [|[|channel rest]| | |];
    simpl; try apply grows_refl.
  - apply grows_same_conn. reflexivity.
  - destruct (negb (read_messages (w (channel_id channel)))); simpl;
      [apply grows_refl|].
    pose proof (grows_index_channel channel (w (channel_id channel)) s) as G.
    destruct (index_channel channel (w (channel_id channel)) s) as [s1 [e|]];
      exact G.
  - destruct (indexing_queue s); simpl;
      [apply grows_refl|apply grows_maybe_index_message].
Qed.

Lemma grows_on_message (m : Message) (s : Snitchvis) :
  grows (database s) (database (on_message m s)).
Proof.
  unfold on_message. destruct (negb (defer_indexing s)); simpl;
    [apply grows_maybe_index_message|apply grows_refl].
Qed.

Lemma grows_index_one (w : Discord) (channel : SnitchChannel)
    (s : Snitchvis) :
  grows (database s) (database (fst (index_one w channel s))).
Proof.
  unfold index_one.
  pose proof (grows_index_channel channel (w (channel_id channel))
                (say (SendIndexing (channel_id channel)) s)) as G.
  destruct (index_channel channel (w (channel_id channel))
              (say (SendIndexing (channel_id channel)) s)) as [s1 [e|]];
    simpl in *; [|exact G].
  eapply grows_trans; [exact G|]. apply grows_same_conn. reflexivity.
Qed.

Lemma grows_index_loop (w : Discord) (channels : list SnitchChannel)
    (s : Snitchvis) :
  grows (database s) (database (fst (index_loop w channels s))).
Proof.
  revert s. induction channels as [|channel rest IH]; intros s; simpl;
    [apply grows_refl|].
  pose proof (grows_index_one w channel s) as G.
  destruct (index_one w channel s) as [s1 [|]]; simpl in *; [|exact G].
  eapply grows_trans; [exact G|apply IH].
Qed.

Lemma grows_index (w : Discord) (guild : Z) (s : Snitchvis) :
  grows (database s) (database (fst (index w guild s))).
Proof.
  unfold index.
    destruct (db.get_snitch_channels (Some guild) (database s)) as [|c l]
      eqn:E; [apply grows_refl|].
    destruct (first_unreadable w (c :: l)); [apply grows_refl|].
    pose proof (grows_index_loop w (c :: l)
                  (say (SendIndexingFollowing (map channel_id (c :: l))) s))
      as G.
    destruct (index_loop w (c :: l)
                (say (SendIndexingFollowing (map channel_id (c :: l))) s))
      as [s1 [|]]; exact G.
Qed.

(** X1. Whatever messages arrive and however far [on_ready] gets, and
    likewise through the [index] command, the database only grows: the
    channel rows stay the same rows in the same order, a cursor that is
    set is never reset to null, the events already stored stay where they
    are with new ones after them, and the render history is not touched. *)
Theorem indexing_only_grows_the_database :
  (forall (schedule : list Action) (s : Snitchvis),
      grows (database s) (database (run schedule s)))
  /\ (forall (w : Discord) (guild : Z) (s : Snitchvis),
         grows (database s) (database (fst (index w guild s)))).
Proof.
  split; [|apply grows_index].
  intros schedule. induction schedule as [|a schedule IH] using rev_ind;
    intros s; [apply grows_refl|].
  rewrite run_snoc. eapply grows_trans; [apply IH|].
  destruct a; simpl; [apply grows_on_message|apply grows_on_ready_step].
Qed.

End KeptByIndexing.

(** ** Startup, from the first resumption to live processing *)

Lemma settled_same_rows (w : Discord) (channel : Z) (d d' : Db) :
  snitch_channel (conn d') = snitch_channel (conn d) ->
  settled w channel d -> settled w channel d'.
Proof. unfold settled. intros E S c m I. rewrite E in I. eauto. Qed.

Lemma settled_update_last_indexed (w : Discord) (channel : Z) (m : Message)
    (b : bool) (d : Db) (ch : Z) :
  newest w channel = Some m ->
  ch = channel \/ settled w ch d ->
  settled w ch (db.update_last_indexed channel (message_id m) b d).
Proof.
  intros N H c' m' I C N'. unfold db.update_last_indexed in I.
  rewrite conn_write in I. simpl in I. apply in_map_iff in I.
  destruct I as (c & <- & I). unfold db.set_cursor in *.
  destruct (channel_id c =? channel) eqn:E.
  - apply Z.eqb_eq in E. simpl in *. congruence.
  - destruct H as [->|S]; [apply Z.eqb_neq in E; congruence|].
    eapply S; eauto.
Qed.

Lemma run_app (a b : list Action) {collaborators : Collaborators}
    (s : Snitchvis) :
  run (a ++ b) s = run b (run a s).
Proof. unfold run. apply fold_left_app. Qed.

Section StartupFacts.

Context {collaborators : Collaborators}.

Lemma index_channel_settled (w : Discord) (channel : SnitchChannel)
    (s : Snitchvis) (ch : Z) :
  history (w (channel_id channel)) <> None ->
  ch = channel_id channel \/ settled w ch (database s) ->
  settled w ch
    (database (fst (index_channel channel (w (channel_id channel)) s))).
Proof.
  intros H S. unfold index_channel.
  destruct (history (w (channel_id channel))) as [messages|] eqn:E;
    [|congruence].
  cbn [fst with_database database say].
  eapply settled_same_rows; [rewrite add_events_conn; reflexivity|].
  destruct messages as [|m rest]; cbn [firstn].
  - destruct S as [->|S]; [|exact S].
    intros c m _ _ N. unfold newest in N. rewrite E in N. discriminate.
  - apply settled_update_last_indexed; [|exact S].
    unfold newest. rewrite E. reflexivity.
Qed.

Lemma index_channel_succeeds (channel : SnitchChannel) (c : TextChannel)
    (s : Snitchvis) :
  history c <> None ->
  exists events, snd (index_channel channel c s) = Some events.
Proof.
  intros H. unfold index_channel. destruct (history c); [|congruence].
  simpl. eauto.
Qed.

Lemma raised_stays_raised (schedule : list Action) (s : Snitchvis) :
  ready s = PcRaised -> defer_indexing s = true ->
  ready (run schedule s) = PcRaised
  /\ defer_indexing (run schedule s) = true
  /\ database (run schedule s) = database s
  /\ indexing_queue (run schedule s) = indexing_queue s ++ arrivals schedule.
Proof.
  intros P D. induction schedule as [|a schedule IH] using rev_ind.
  - simpl. rewrite app_nil_r. auto.
  - destruct IH as (P' & D' & B' & Q').
    rewrite run_snoc, arrivals_snoc. destruct a as [m|w]; simpl.
    + unfold on_message. rewrite D'. simpl.
      rewrite Q', app_assoc. auto.
    + unfold on_ready_step. rewrite P', app_nil_r. auto.
Qed.

(** X2. When reading the history of a channel raises during the startup
    backfill, [on_ready] ends there with the deferral still on: from then
    on, whatever arrives is only queued, nothing is ever indexed and the
    database stays as it was. *)
Theorem raising_history_leaves_the_deferral_on :
  forall (w : Discord) (channel : SnitchChannel) (rest : list SnitchChannel)
         (s : Snitchvis) (schedule : list Action),
    ready s = PcBackfill (channel :: rest) ->
    defer_indexing s = true ->
    read_messages (w (channel_id channel)) = true ->
    history (w (channel_id channel)) = None ->
    let s' := run (Resume w :: schedule) s in
    ready s' = PcRaised /\ defer_indexing s' = true
    /\ database s' = database s
    /\ indexing_queue s' = indexing_queue s ++ arrivals schedule.
Proof.
  intros w channel rest s schedule P D R H s'.
  assert (on_ready_step w s
          = with_ready PcRaised
              (say (PrintIndexingChannel (channel_id channel)
                      (channel_guild channel)) s)) as E.
  { unfold on_ready_step. rewrite P, R. simpl.
    rewrite index_channel_raises by exact H. reflexivity. }
  subst s'. change (run (Resume w :: schedule) s)
    with (run schedule (on_ready_step w s)).
  rewrite E.
  destruct (raised_stays_raised schedule
              (with_ready PcRaised
                 (say (PrintIndexingChannel (channel_id channel)
                         (channel_guild channel)) s)))
    as (A & B & C & Q); [reflexivity|exact D|].
  simpl in C, Q. auto.
Qed.

Lemma backfill_loop_completes (w : Discord) (rows : list SnitchChannel)
    (s : Snitchvis) :
  ready s = PcBackfill rows ->
  (forall c, In c rows -> read_messages (w (channel_id c)) = true ->
             history (w (channel_id c)) <> None) ->
  let s' := run (repeat (Resume w) (List.length rows)) s in
  ready s' = PcBackfill []
  /\ defer_indexing s' = defer_indexing s
  /\ indexing_queue s' = indexing_queue s
  /\ (forall ch,
         settled w ch (database s)
         \/ (exists c, In c rows /\ channel_id c = ch
                       /\ read_messages (w ch) = true) ->
         settled w ch (database s')).
Proof.
  revert s. induction rows as [|channel rest IH]; intros s P H.
  - simpl. repeat split; auto.
    intros ch [S|(c & [] & _)]. exact S.
  - cbn zeta. change (run (repeat (Resume w) (List.length (channel :: rest))) s)
      with (run (repeat (Resume w) (List.length rest)) (on_ready_step w s)).
    assert (ready (on_ready_step w s) = PcBackfill rest
            /\ defer_indexing (on_ready_step w s) = defer_indexing s
            /\ indexing_queue (on_ready_step w s) = indexing_queue s
            /\ (forall ch,
                   settled w ch (database s)
                   \/ (channel_id channel = ch
                       /\ read_messages (w ch) = true) ->
                   settled w ch (database (on_ready_step w s)))) as K.
    { unfold on_ready_step. rewrite P.
      destruct (read_messages (w (channel_id channel))) eqn:R; simpl.
      - assert (history (w (channel_id channel)) <> None) as HN
          by (apply H; [left; reflexivity|exact R]).
        destruct (index_channel_succeeds channel (w (channel_id channel)) s HN)
          as [events SE].
        destruct (index_channel_frame channel (w (channel_id channel)) s)
          as (F1 & F2 & _).
        pose proof (fun ch => index_channel_settled w channel s ch HN) as ST.
        destruct (index_channel channel (w (channel_id channel)) s)
          as [s1 o]. simpl in *. subst o. simpl.
        repeat split; auto.
        intros ch [S|[<- _]]; apply ST; auto.
      - repeat split; auto.
        intros ch [S|[<- T]]; [exact S|congruence]. }
    destruct K as (P1 & D1 & Q1 & S1).
    destruct (IH (on_ready_step w s) P1) as (P2 & D2 & Q2 & S2).
    { intros c I. apply H. right. exact I. }
    cbn zeta in *. repeat split; try congruence.
    intros ch [S|(c & [<-|I] & C & R)].
    + apply S2. left. apply S1. left. exact S.
    + apply S2. left. apply S1. right. auto.
    + apply S2. right. exists c. auto.
Qed.

(** X3. If no readable channel raises when its history is read, startup
    comes to its end: resumed once per channel and three times more (the
    start, the commit, the look at the empty queue), with no message
    arriving, [on_ready] has lifted the deferral, everything is committed,
    and every readable channel has its cursor at its newest message. *)
Theorem startup_completes_when_no_history_raises :
  forall (w : Discord) (d : Db),
    (forall c, In c (snitch_channel (conn d)) ->
               read_messages (w (channel_id c)) = true ->
               history (w (channel_id c)) <> None) ->
    let s :=
      run (repeat (Resume w) (List.length (snitch_channel (conn d)) + 3))
        (init d) in
    ready s = PcDone /\ defer_indexing s = false /\ indexing_queue s = []
    /\ disk (database s) = conn (database s)
    /\ (forall c, In c (snitch_channel (conn d)) ->
                  read_messages (w (channel_id c)) = true ->
                  settled w (channel_id c) (database s)).
Proof.
  intros w d H s. subst s.
  replace (List.length (snitch_channel (conn d)) + 3)%nat
    with (1 + (List.length (snitch_channel (conn d)) + 2))%nat by lia.
  rewrite !repeat_app, !run_app.
  set (s0 := run (repeat (Resume w) 1) (init d)).
  assert (ready s0 = PcBackfill (snitch_channel (conn d))
          /\ defer_indexing s0 = true /\ indexing_queue s0 = []
          /\ database s0 = d) as (P0 & D0 & Q0 & B0)
    by (repeat split; reflexivity).
  destruct (backfill_loop_completes w (snitch_channel (conn d)) s0 P0 H)
    as (P1 & D1 & Q1 & S1). cbn zeta in *.
  set (s1 := run (repeat (Resume w) (List.length (snitch_channel (conn d))))
               s0) in *.
  change (run (repeat (Resume w) 2) s1)
    with (on_ready_step w (on_ready_step w s1)).
  assert (on_ready_step w s1
          = with_ready PcDrain (with_database (db.commit (database s1)) s1))
    as E1 by (unfold on_ready_step; rewrite P1; reflexivity).
  rewrite E1.
  assert (on_ready_step w
            (with_ready PcDrain
               (with_database (db.commit (database s1)) s1))
          = with_ready PcDone
              (with_defer false
                 (with_ready PcDrain
                    (with_database (db.commit (database s1)) s1)))) as E2
    by (unfold on_ready_step; simpl; rewrite Q1, Q0; reflexivity).
  rewrite E2. simpl. rewrite Q1, Q0.
  split; [reflexivity|]. split; [reflexivity|]. split; [reflexivity|].
  split; [reflexivity|].
  intros c I R. eapply settled_same_rows; [|apply S1].
  - reflexivity.
  - right. exists c. auto.
Qed.

(** X4. The live path does not look whether a message is already in the
    event table. A message that is queued during the startup deferral and
    that the backfill of its channel then reads from the history as the
    newest message is stored twice: once by the backfill, once more when
    the queue is drained. *)
Theorem queued_message_read_by_backfill_is_stored_twice :
  forall (w : Discord) (channel known : SnitchChannel) (s : Snitchvis)
         (m : Message) (older : list Message) (e : Event),
    ready s = PcBackfill [channel] ->
    defer_indexing s = true ->
    indexing_queue s = [m] ->
    read_messages (w (channel_id channel)) = true ->
    history (w (channel_id channel)) = Some (m :: older) ->
    message_channel m = channel_id channel ->
    db.get_snitch_channel (channel_id channel) (database s) = Some known ->
    Event_parse (message_content m) = Some e ->
    message_id m <> 0 ->
    (forall C, last_indexed_id channel = Some C ->
               C = 0 \/ C < message_id m) ->
    let s' := run (repeat (Resume w) 4) s in
    ready s' = PcDone /\ defer_indexing s' = false
    /\ event (conn (database s'))
       = event (conn (database s))
         ++ ((m, e) :: scan (last_indexed_id channel) older) ++ [(m, e)].
Proof.
  intros w channel known s m older e P D Q R H MC K PE NZ LC s'.
  assert (scan (last_indexed_id channel) (m :: older)
          = (m, e) :: scan (last_indexed_id channel) older) as SC.
  { simpl. rewrite PE.
    destruct (last_indexed_id channel) as [C|] eqn:L; simpl; [|reflexivity].
    destruct (LC C eq_refl) as [->|LT]; [reflexivity|].
    replace (message_id m <=? C) with false
      by (symmetry; apply Z.leb_gt; exact LT).
    rewrite andb_false_r. reflexivity. }
  subst s'. change (run (repeat (Resume w) 4) s)
    with (on_ready_step w (on_ready_step w (on_ready_step w
            (on_ready_step w s)))).
  set (d1 := add_events ((m, e) :: scan (last_indexed_id channel) older)
               (db.update_last_indexed (channel_id channel) (message_id m)
                  false (database s))).
  assert (on_ready_step w s
          = with_ready (PcBackfill [])
              (with_database d1
                 (say (PrintIndexingChannel (channel_id channel)
                         (channel_guild channel)) s))) as E1.
  { unfold on_ready_step. rewrite P, R. simpl.
    unfold index_channel. rewrite H, SC. reflexivity. }
  rewrite E1.
  set (s1 := with_ready (PcBackfill [])
               (with_database d1
                  (say (PrintIndexingChannel (channel_id channel)
                          (channel_guild channel)) s))).
  assert (on_ready_step w s1
          = with_ready PcDrain (with_database (db.commit d1) s1)) as E2
    by reflexivity.
  rewrite E2.
  set (s2 := with_ready PcDrain (with_database (db.commit d1) s1)).
  assert (on_ready_step w s2
          = with_database (maybe_index_message m (db.commit d1))
              (with_queue [] s2)) as E3
    by (unfold on_ready_step; simpl; rewrite Q; reflexivity).
  rewrite E3.
  set (s3 := with_database (maybe_index_message m (db.commit d1))
               (with_queue [] s2)).
  assert (on_ready_step w s3 = with_ready PcDone (with_defer false s3)) as E4
    by reflexivity.
  rewrite E4. simpl.
  split; [reflexivity|]. split; [reflexivity|].
  assert (db.get_snitch_channel (message_channel m) (db.commit d1)
          = Some (db.set_cursor (channel_id channel) (message_id m) known))
    as G.
  { unfold db.get_snitch_channel in *. simpl. subst d1.
    rewrite add_events_conn. simpl. rewrite MC, find_set_cursor, K.
    reflexivity. }
  unfold maybe_index_message. rewrite G.
  rewrite (set_cursor_known _ _ _ _ K). simpl.
  replace (message_id m =? 0) with false
    by (symmetry; apply Z.eqb_neq; exact NZ).
  simpl. rewrite PE. simpl. subst d1. rewrite add_events_conn. simpl.
  rewrite <- app_assoc. reflexivity.
Qed.

(** X5. Backfill is what makes a channel live. After the backfill of a
    known channel whose newest message has a non-zero id, a later message
    of that channel that matches the grammar is appended to the events and
    becomes the cursor; after the backfill of a channel without messages
    whose cursor is null, every message of the channel is still discarded. *)
Theorem backfill_makes_a_channel_live_unless_it_is_empty :
  forall (channel known : SnitchChannel) (c : TextChannel) (s : Snitchvis)
         (m : Message),
    message_channel m = channel_id channel ->
    db.get_snitch_channel (channel_id channel) (database s) = Some known ->
    let d1 := database (fst (index_channel channel c s)) in
    (forall newest_ older e,
        history c = Some (newest_ :: older) -> message_id newest_ <> 0 ->
        Event_parse (message_content m) = Some e ->
        event (conn (maybe_index_message m d1)) = event (conn d1) ++ [(m, e)]
        /\ exists known',
            db.get_snitch_channel (channel_id channel)
              (maybe_index_message m d1) = Some known'
            /\ last_indexed_id known' = Some (message_id m))
    /\ (history c = Some [] -> last_indexed_id known = None ->
        d1 = database s /\ maybe_index_message m d1 = d1).
Proof.
  intros channel known c s m MC K d1. split.
  - intros n older e H NZ PE.
    assert (db.get_snitch_channel (message_channel m) d1
            = Some (db.set_cursor (channel_id channel) (message_id n) known))
      as G.
    { subst d1. unfold index_channel. rewrite H.
      unfold db.get_snitch_channel in *. simpl.
      rewrite add_events_conn. simpl. rewrite MC, find_set_cursor, K.
      reflexivity. }
    unfold maybe_index_message. rewrite G.
    rewrite (set_cursor_known _ _ _ _ K). simpl.
    replace (message_id n =? 0) with false
      by (symmetry; apply Z.eqb_neq; exact NZ).
    simpl. rewrite PE. simpl. split; [reflexivity|].
    unfold db.get_snitch_channel in *. simpl. rewrite MC in *.
    rewrite find_set_cursor, G. simpl. eexists. split; [reflexivity|].
    eapply set_cursor_known. exact G.
  - intros H N.
    assert (d1 = database s) as E
      by (subst d1; unfold index_channel; rewrite H; reflexivity).
    split; [exact E|]. rewrite E. unfold maybe_index_message.
    rewrite MC, K, N. reflexivity.
Qed.

End StartupFacts.

(** ** The [index] command, run and run again *)

Lemma db_eta (d d' : Db) : conn d = conn d' -> disk d = disk d' -> d = d'.
Proof. destruct d, d'. simpl. congruence. Qed.

Lemma settled_rows_fixed (w : Discord) (channel : Z) (m : Message) (d : Db) :
  settled w channel d -> newest w channel = Some m ->
  map (db.set_cursor channel (message_id m)) (snitch_channel (conn d))
  = snitch_channel (conn d).
Proof.
  intros S N. rewrite <- (map_id (snitch_channel (conn d))) at 2.
  apply map_ext_in. intros c I. unfold db.set_cursor.
  destruct (channel_id c =? channel) eqn:E; [|reflexivity].
  apply Z.eqb_eq in E. specialize (S c m I E N).
  destruct c. simpl in *. congruence.
Qed.

Lemma rows_kept_guild_ids (guild : Z) (rows rows' : list SnitchChannel) :
  Forall2 row_kept rows rows' ->
  map channel_id (filter (fun c => channel_guild c =? guild) rows')
  = map channel_id (filter (fun c => channel_guild c =? guild) rows).
Proof.
  induction 1 as [|c c' rows rows' (I & G & _) _ IH]; [reflexivity|].
  simpl. rewrite G. destruct (channel_guild c =? guild); simpl; congruence.
Qed.

Lemma first_unreadable_by_id (w : Discord) (a b : list SnitchChannel) :
  map channel_id a = map channel_id b ->
  first_unreadable w a = None -> first_unreadable w b = None.
Proof.
  unfold first_unreadable. revert b.
  induction a as [|x a IH]; intros [|y b] E; try discriminate; auto.
  simpl in *. inversion E as [[E1 E2]]. rewrite E1.
  destruct (negb (read_messages (w (channel_id y)))); [discriminate|].
  apply IH. exact E2.
Qed.

Section IndexFacts.

Context {collaborators : Collaborators}.

Lemma index_channel_tables (w : Discord) (c : SnitchChannel) (s : Snitchvis) :
  history (w (channel_id c)) <> None ->
  let r := index_channel c (w (channel_id c)) s in
  snd r = Some (fresh_events w c)
  /\ snitch_channel (conn (database (fst r)))
     = match newest w (channel_id c) with
       | Some m => map (db.set_cursor (channel_id c) (message_id m))
                     (snitch_channel (conn (database s)))
       | None => snitch_channel (conn (database s))
       end
  /\ event (conn (database (fst r)))
     = event (conn (database s)) ++ fresh_events w c
  /\ render_history (conn (database (fst r)))
     = render_history (conn (database s))
  /\ disk (database (fst r)) = disk (database s)
  /\ output (fst r)
     = output s ++ [PrintIndexingChannel (channel_id c) (channel_guild c)].
Proof.
  intros H. unfold index_channel, fresh_events, newest.
  destruct (history (w (channel_id c))) as [messages|]; [|congruence].
  cbn zeta. cbn [fst snd with_database database say output].
  rewrite add_events_conn, add_events_disk. cbn [snitch_channel event
    render_history].
  destruct messages; cbn [firstn]; repeat split.
Qed.

Lemma index_one_tables (w : Discord) (c : SnitchChannel) (s : Snitchvis) :
  history (w (channel_id c)) <> None ->
  exists s1,
    index_one w c s = (s1, Returned)
    /\ snitch_channel (conn (database s1))
       = match newest w (channel_id c) with
         | Some m => map (db.set_cursor (channel_id c) (message_id m))
                       (snitch_channel (conn (database s)))
         | None => snitch_channel (conn (database s))
         end
    /\ event (conn (database s1))
       = event (conn (database s)) ++ fresh_events w c
    /\ render_history (conn (database s1))
       = render_history (conn (database s))
    /\ disk (database s1) = conn (database s1)
    /\ output s1 = output s ++ index_lines w c.
Proof.
  intros H. unfold index_one.
  destruct (index_channel_tables w c (say (SendIndexing (channel_id c)) s) H)
    as (R & T1 & T2 & T3 & _ & O).
  destruct (index_channel c (w (channel_id c))
              (say (SendIndexing (channel_id c)) s)) as [s0 o].
  simpl in R. subst o. eexists. split; [reflexivity|].
  simpl in *. rewrite T1, T2, T3, O. unfold index_lines.
  rewrite <- !app_assoc. repeat split.
Qed.

Lemma settled_by_tables (w : Discord) (c : SnitchChannel) (d d' : Db)
    (ch : Z) :
  snitch_channel (conn d')
  = match newest w (channel_id c) with
    | Some m => map (db.set_cursor (channel_id c) (message_id m))
                  (snitch_channel (conn d))
    | None => snitch_channel (conn d)
    end ->
  ch = channel_id c \/ settled w ch d ->
  settled w ch d'.
Proof.
  intros T S. destruct (newest w (channel_id c)) as [m|] eqn:N.
  - eapply settled_same_rows;
      [|apply (settled_update_last_indexed w (channel_id c) m false d ch N S)].
    unfold db.update_last_indexed. rewrite conn_write. exact T.
  - destruct S as [->|S]; [|eapply settled_same_rows; eauto].
    intros c' m' _ _ N'. congruence.
Qed.

Lemma index_loop_tables (w : Discord) (channels : list SnitchChannel)
    (s : Snitchvis) :
  (forall c, In c channels -> history (w (channel_id c)) <> None) ->
  exists s',
    index_loop w channels s = (s', Returned)
    /\ event (conn (database s'))
       = event (conn (database s)) ++ flat_map (fresh_events w) channels
    /\ render_history (conn (database s'))
       = render_history (conn (database s))
    /\ (disk (database s) = conn (database s) \/ channels <> [] ->
        disk (database s') = conn (database s'))
    /\ (forall ch, settled w ch (database s)
                   \/ In ch (map channel_id channels) ->
                   settled w ch (database s'))
    /\ output s' = output s ++ flat_map (index_lines w) channels.
Proof.
  revert s. induction channels as [|c rest IH]; intros s H.
  - exists s. simpl. rewrite !app_nil_r. repeat split; auto.
    + intros [D|N]; [exact D|congruence].
    + intros ch [S|[]]. exact S.
  - destruct (index_one_tables w c s) as (s1 & E1 & T1 & T2 & T3 & T4 & T5).
    { apply H. left. reflexivity. }
    destruct (IH s1) as (s' & E & U2 & U3 & U4 & U5 & U6).
    { intros c' I. apply H. right. exact I. }
    exists s'. simpl. rewrite E1. split; [exact E|].
    rewrite U2, T2, U3, T3, U6, T5, <- !app_assoc.
    repeat split; auto.
    intros ch S. apply U5.
    destruct S as [S|[<-|I]]; [left|left|right; exact I].
    + eapply settled_by_tables; [exact T1|right; exact S].
    + eapply settled_by_tables; [exact T1|left; reflexivity].
Qed.

Lemma index_loop_returned (w : Discord) (channels : list SnitchChannel)
    (s s' : Snitchvis) :
  index_loop w channels s = (s', Returned) ->
  forall c, In c channels -> history (w (channel_id c)) <> None.
Proof.
  revert s. induction channels as [|c rest IH]; intros s E c' I;
    [destruct I|].
  simpl in E. destruct (index_one w c s) as [s1 [|]] eqn:O; [|discriminate].
  destruct I as [<-|I]; [|eapply IH; eauto].
  intros N. unfold index_one in O.
  rewrite index_channel_raises in O by exact N. discriminate.
Qed.

Lemma index_runs_its_loop (w : Discord) (guild : Z) (s : Snitchvis) :
  db.get_snitch_channels (Some guild) (database s) <> [] ->
  (forall c, In c (db.get_snitch_channels (Some guild) (database s)) ->
             read_messages (w (channel_id c)) = true) ->
  let channels := db.get_snitch_channels (Some guild) (database s) in
  index w guild s
  = match index_loop w channels
            (say (SendIndexingFollowing (map channel_id channels)) s) with
    | (s', Raised) => (s', Raised)
    | (s', Returned) => (say SendFinishedIndexing s', Returned)
    end.
Proof.
  intros NE H channels. subst channels. unfold index.
  destruct (db.get_snitch_channels (Some guild) (database s))
    as [|c0 rest]; [congruence|].
  assert (first_unreadable w (c0 :: rest) = None) as F.
  { unfold first_unreadable.
    destruct (find (fun channel => negb (read_messages (w (channel_id channel))))
                (c0 :: rest)) as [c|] eqn:FF; [|reflexivity].
    apply find_some in FF. destruct FF as [I R].
    rewrite (H c I) in R. discriminate. }
  rewrite F. reflexivity.
Qed.


Lemma settled_no_fresh_events (w : Discord) (c : SnitchChannel) (d : Db) :
  In c (snitch_channel (conn d)) ->
  settled w (channel_id c) d ->
  (forall m, newest w (channel_id c) = Some m -> message_id m <> 0) ->
  fresh_events w c = [].
Proof.
  intros I S NZ. unfold fresh_events.
  destruct (history (w (channel_id c))) as [[|m rest]|] eqn:H;
    [reflexivity| |reflexivity].
  assert (newest w (channel_id c) = Some m) as N
    by (unfold newest; rewrite H; reflexivity).
  rewrite (S c m I eq_refl N). simpl.
  replace (message_id m =? 0) with false
    by (symmetry; apply Z.eqb_neq; apply NZ; exact N).
  rewrite Z.leb_refl. reflexivity.
Qed.

Lemma index_loop_settled (w : Discord) (channels : list SnitchChannel)
    (s : Snitchvis) :
  (forall c, In c channels ->
             history (w (channel_id c)) <> None
             /\ In c (snitch_channel (conn (database s)))
             /\ settled w (channel_id c) (database s)
             /\ (forall m, newest w (channel_id c) = Some m ->
                           message_id m <> 0)) ->
  disk (database s) = conn (database s) ->
  exists s',
    index_loop w channels s = (s', Returned)
    /\ database s' = database s.
Proof.
  revert s. induction channels as [|c rest IH]; intros s H D.
  - exists s. auto.
  - destruct (H c (or_introl eq_refl)) as (HN & I & S & NZ).
    destruct (index_one_tables w c s HN)
      as (s1 & E1 & T1 & T2 & T3 & T4 & _).
    assert (conn (database s1) = conn (database s)) as C1.
    { rewrite (settled_no_fresh_events w c (database s) I S NZ),
        app_nil_r in T2.
      assert (snitch_channel (conn (database s1))
              = snitch_channel (conn (database s))) as R.
      { rewrite T1. destruct (newest w (channel_id c)) as [m|] eqn:N;
          [|reflexivity].
        apply (settled_rows_fixed w); assumption. }
      destruct (conn (database s1)), (conn (database s)). simpl in *.
      congruence. }
    assert (database s1 = database s) as B1
      by (apply db_eta; congruence).
    destruct (IH s1) as (s' & E & B).
    { intros c' I'. destruct (H c' (or_intror I')) as (A1 & A2 & A3 & A4).
      rewrite B1. auto. }
    { congruence. }
    exists s'. simpl. rewrite E1. split; [exact E|congruence].
Qed.

(** X7. Running [index] again changes nothing. When [index] has returned
    and Discord is as it was (ids being non-zero), a second [index] in the
    same guild returns as well and leaves the database exactly as the
    first run left it: no event is added twice. *)
Theorem index_twice_is_index_once :
  forall (w : Discord) (guild : Z) (s s1 : Snitchvis),
    index w guild s = (s1, Returned) ->
    (forall ch m, newest w ch = Some m -> message_id m <> 0) ->
    exists s2,
      index w guild s1 = (s2, Returned) /\ database s2 = database s1.
Proof.
  intros w guild s s1 E NZ.
  pose proof (grows_index w guild s) as G. rewrite E in G. simpl in G.
  destruct G as (RK & _ & _).
  pose proof (rows_kept_guild_ids guild _ _ RK) as IDS.
  unfold index in E.
  change (filter (fun c => channel_guild c =? guild)
            (snitch_channel (conn (database s))))
    with (db.get_snitch_channels (Some guild) (database s)) in IDS.
  change (filter (fun c => channel_guild c =? guild)
            (snitch_channel (conn (database s1))))
    with (db.get_snitch_channels (Some guild) (database s1)) in IDS.
  destruct (db.get_snitch_channels (Some guild) (database s))
    as [|c0 rest] eqn:L.
  - inversion E; subst. unfold index. cbn [database say]. rewrite L.
    eexists. split; reflexivity.
  - destruct (first_unreadable w (c0 :: rest)) as [c|] eqn:F.
    + inversion E; subst. unfold index. cbn [database say]. rewrite L, F.
      eexists. split; reflexivity.
    + destruct (index_loop w (c0 :: rest)
                  (say (SendIndexingFollowing (map channel_id (c0 :: rest)))
                     s)) as [s' [|]] eqn:LP; [|discriminate].
      inversion E; subst. clear E.
      pose proof (index_loop_returned w _ _ _ LP) as HN.
      destruct (index_loop_tables w (c0 :: rest)
                  (say (SendIndexingFollowing (map channel_id (c0 :: rest)))
                     s) HN)
        as (s'' & LP' & _ & _ & T4 & T5 & _).
      rewrite LP in LP'. inversion LP'; subst s''. clear LP'.
      assert (disk (database s') = conn (database s')) as D
        by (apply T4; right; discriminate).
      unfold index. cbn [database say] in *.
      destruct (db.get_snitch_channels (Some guild) (database s'))
        as [|c1 rest1] eqn:L1; [discriminate|].
      rewrite (first_unreadable_by_id w (c0 :: rest) (c1 :: rest1)
                 (eq_sym IDS) F).
      destruct (index_loop_settled w (c1 :: rest1)
                  (say (SendIndexingFollowing (map channel_id (c1 :: rest1)))
                     (say SendFinishedIndexing s')))
        as (s2 & LP2 & B2).
      { intros c I.
        assert (In (channel_id c) (map channel_id (c0 :: rest))) as II
          by (rewrite <- IDS; apply in_map; exact I).
        cbn [database say].
        split; [|split; [|split]].
        - apply in_map_iff in II. destruct II as (c' & EQ & I').
          rewrite <- EQ. apply HN. exact I'.
        - rewrite <- L1 in I. unfold db.get_snitch_channels in I.
          apply filter_In in I. tauto.
        - apply T5. right. exact II.
        - intros m. apply NZ. }
      { exact D. }
      rewrite LP2. eexists. split; [reflexivity|exact B2].
Qed.

End IndexFacts.

(** ** [full_reindex] *)

Lemma reset_cursor_id (guild : Z) (c : SnitchChannel) :
  channel_id (reset_cursor guild c) = channel_id c
  /\ channel_guild (reset_cursor guild c) = channel_guild c.
Proof.
  unfold reset_cursor. destruct (channel_guild c =? guild); auto.
Qed.

Lemma filter_guild_reset (guild : Z) (rows : list SnitchChannel) :
  filter (fun c => channel_guild c =? guild) (map (reset_cursor guild) rows)
  = map (reset_cursor guild)
      (filter (fun c => channel_guild c =? guild) rows).
Proof.
  induction rows as [|c rows IH]; [reflexivity|]. simpl.
  destruct (reset_cursor_id guild c) as [_ G]. rewrite G.
  destruct (channel_guild c =? guild); simpl; congruence.
Qed.

Lemma first_unreadable_reset (w : Discord) (guild : Z)
    (rows : list SnitchChannel) :
  first_unreadable w (map (reset_cursor guild) rows)
  = option_map (reset_cursor guild) (first_unreadable w rows).
Proof.
  unfold first_unreadable. induction rows as [|c rows IH]; [reflexivity|].
  simpl. destruct (reset_cursor_id guild c) as [I _]. rewrite I.
  destruct (negb (read_messages (w (channel_id c)))); auto.
Qed.

Section ReindexFacts.

Context {collaborators : Collaborators}.

Lemma fresh_events_reset (w : Discord) (guild : Z)
    (rows : list SnitchChannel) :
  (forall c, In c rows -> channel_guild c = guild) ->
  flat_map (fresh_events w) (map (reset_cursor guild) rows)
  = flat_map (history_events w) rows.
Proof.
  intros G. induction rows as [|c rows IH]; [reflexivity|]. simpl.
  rewrite IH by (intros c' I; apply G; right; exact I). f_equal.
  unfold fresh_events, history_events, reset_cursor.
  rewrite (G c (or_introl eq_refl)), Z.eqb_refl. simpl.
  destruct (history (w (channel_id c))); [|reflexivity].
  apply scan_falsy. reflexivity.
Qed.

Lemma conn_reset (commits : bool) (guild : Z) (d : Db) :
  conn (db.write (reset_guild_cursors guild) commits
          (db.write (delete_guild_events guild) commits d))
  = reset_guild_cursors guild (delete_guild_events guild (conn d)).
Proof. rewrite !conn_write. reflexivity. Qed.

(** X8. [full_reindex -y] in a guild whose channels can all be read ends
    with the events of the guild rebuilt from the histories alone: the
    events of other guilds are kept, those of the guild are replaced by
    the events of every message of every channel of the guild, whatever
    was indexed and wherever the cursors stood before; all is committed. *)
Theorem full_reindex_rebuilds_the_events_of_the_guild :
  forall (commits : bool) (w : Discord) (guild : Z) (s : Snitchvis),
    db.get_snitch_channels (Some guild) (database s) <> [] ->
    (forall c, In c (db.get_snitch_channels (Some guild) (database s)) ->
               read_messages (w (channel_id c)) = true
               /\ history (w (channel_id c)) <> None) ->
    exists s',
      full_reindex commits w guild true s = ([NoticeDropping], (s', Returned))
      /\ event (conn (database s'))
         = filter (fun me => negb (message_guild (fst me) =? guild))
             (event (conn (database s)))
           ++ flat_map (history_events w)
                (db.get_snitch_channels (Some guild) (database s))
      /\ disk (database s') = conn (database s').
Proof.
  intros commits w guild s NE H. unfold full_reindex. simpl negb. cbv iota.
  cbn zeta.
  set (d := db.write (reset_guild_cursors guild) commits
              (db.write (delete_guild_events guild) commits (database s))).
  assert (db.get_snitch_channels (Some guild) d
          = map (reset_cursor guild)
              (db.get_snitch_channels (Some guild) (database s))) as L.
  { unfold db.get_snitch_channels. subst d. rewrite conn_reset. simpl.
    apply filter_guild_reset. }
  assert (forall c, In c (db.get_snitch_channels (Some guild) d) ->
                    read_messages (w (channel_id c)) = true
                    /\ history (w (channel_id c)) <> None) as H'.
  { rewrite L. intros c I.
    apply in_map_iff in I. destruct I as (c' & <- & I).
    destruct (reset_cursor_id guild c') as [-> _]. apply H. exact I. }
  assert (db.get_snitch_channels (Some guild) d <> []) as NE'.
  { rewrite L.
    destruct (db.get_snitch_channels (Some guild) (database s));
      [congruence|discriminate]. }
  rewrite index_runs_its_loop;
    [|exact NE'|intros c I; apply H'; exact I].
  cbn [database with_database].
  destruct (index_loop_tables w (db.get_snitch_channels (Some guild) d)
              (say (SendIndexingFollowing
                      (map channel_id
                         (db.get_snitch_channels (Some guild) d)))
                 (with_database d s)))
    as (s' & E & T1 & _ & T2 & _).
  { intros c I. apply H'. exact I. }
  rewrite E. eexists. split; [reflexivity|].
  cbn [database with_database say] in *.
  split; [|apply T2; right; exact NE'].
  rewrite T1, L.
  rewrite fresh_events_reset.
  - subst d. rewrite conn_reset. reflexivity.
  - intros c I. unfold db.get_snitch_channels in I.
    apply filter_In in I. destruct I as [_ G]. apply Z.eqb_eq. exact G.
Qed.

(** X9. [full_reindex -y] in a guild with no snitch channel, or with a
    channel the bot cannot read, drops and does not rebuild: it returns
    with the events of the guild deleted and the cursors of the guild
    null, so that every later live message of the guild is discarded
    until an [index] goes through. *)
Theorem full_reindex_without_index_leaves_the_guild_empty :
  forall (commits : bool) (w : Discord) (guild : Z) (s : Snitchvis),
    db.get_snitch_channels (Some guild) (database s) = []
    \/ first_unreadable w (db.get_snitch_channels (Some guild) (database s))
       <> None ->
    let r := full_reindex commits w guild true s in
    let d' := database (fst (snd r)) in
    snd (snd r) = Returned
    /\ conn d'
       = reset_guild_cursors guild
           (delete_guild_events guild (conn (database s)))
    /\ (forall me, In me (event (conn d')) -> message_guild (fst me) <> guild)
    /\ (forall c, In c (snitch_channel (conn d')) -> channel_guild c = guild ->
                  last_indexed_id c = None)
    /\ (forall m c,
           db.get_snitch_channel (message_channel m) d' = Some c ->
           channel_guild c = guild ->
           maybe_index_message m d' = d').
Proof.
  intros commits w guild s H r d'.
  set (d := db.write (reset_guild_cursors guild) commits
              (db.write (delete_guild_events guild) commits (database s))).
  assert (db.get_snitch_channels (Some guild) d
          = map (reset_cursor guild)
              (db.get_snitch_channels (Some guild) (database s))) as L.
  { unfold db.get_snitch_channels. subst d. rewrite conn_reset. simpl.
    apply filter_guild_reset. }
  assert (snd (snd r) = Returned /\ d' = d) as [R D].
  { subst d' r. unfold full_reindex. simpl negb. cbv iota. cbn zeta.
    fold d. unfold index. cbn [database with_database]. rewrite L.
    destruct (db.get_snitch_channels (Some guild) (database s))
      as [|c0 rest]; [split; reflexivity|].
    destruct H as [H|H]; [discriminate|].
    change (map (reset_cursor guild) (c0 :: rest))
      with (reset_cursor guild c0 :: map (reset_cursor guild) rest).
    cbv iota.
    change (reset_cursor guild c0 :: map (reset_cursor guild) rest)
      with (map (reset_cursor guild) (c0 :: rest)).
    rewrite first_unreadable_reset.
    destruct (first_unreadable w (c0 :: rest)); [|congruence].
    split; reflexivity. }
  assert (conn d = reset_guild_cursors guild
                     (delete_guild_events guild (conn (database s)))) as C
    by (subst d; apply conn_reset).
  assert (forall c, In c (snitch_channel (conn d)) -> channel_guild c = guild ->
                    last_indexed_id c = None) as N.
  { intros c I G. rewrite C in I. simpl in I. apply in_map_iff in I.
    destruct I as (c0 & <- & _). unfold reset_cursor in *.
    destruct (channel_guild c0 =? guild) eqn:E; [reflexivity|].
    apply Z.eqb_neq in E. congruence. }
  rewrite D. split; [exact R|]. split; [exact C|]. split; [|split].
  - intros me I. rewrite C in I. simpl in I. apply filter_In in I.
    destruct I as [_ I]. apply negb_true_iff in I. apply Z.eqb_neq. exact I.
  - exact N.
  - intros m c F G. unfold maybe_index_message. rewrite F.
    unfold db.get_snitch_channel in F. apply find_some in F.
    destruct F as [I _]. rewrite (N c I G). reflexivity.
Qed.

End ReindexFacts.

(** ** More on [render] *)

Lemma sum_snoc (l : list Z) (x : Z) :
  fold_right Z.add 0 (l ++ [x]) = fold_right Z.add 0 l + x.
Proof. induction l as [|y l IH]; simpl; lia. Qed.

Lemma usage_after_add_render_history (guild guild' pixels timestamp : Z)
    (start end_ : Z) (d : Db) :
  db.get_pixel_usage guild' start end_
    (db.add_render_history guild pixels timestamp d)
  = db.get_pixel_usage guild' start end_ d
    + (if (guild =? guild') && (start <=? timestamp) && (timestamp <? end_)
       then pixels else 0).
Proof.
  unfold db.get_pixel_usage, db.add_render_history. simpl.
  rewrite filter_app, map_app. simpl.
  destruct ((guild =? guild') && (start <=? timestamp) && (timestamp <? end_));
    simpl; [apply sum_snoc|rewrite app_nil_r; lia].
Qed.

Section MoreRenderFacts.

Context {collaborators : Collaborators}.

(** X10. [--export svis] passes the validation and then exports nothing:
    the request is resolved, checked against the limits, rendered and
    recorded exactly as the same request without [--export]. The same
    holds for an empty [--export]. *)
Theorem export_svis_renders_like_no_export :
  forall (guild author : Z) (args : RenderArgs) (clock : Clock) (d : Db),
    export args = Some "svis" \/ export args = Some "" ->
    render guild author args clock d
    = render guild author (with_export None args) clock d.
Proof.
  intros guild author args clock d X. unfold render.
  change (resolve_window (with_export None args) clock guild d)
    with (resolve_window args clock guild d).
  cbn [export with_export users groups duration fps size].
  destruct X as [-> | ->]; reflexivity.
Qed.

(** X11. With [--past] the dates play no part: a non-zero duration gives
    the window from that long ago up to now, refused only when the
    duration is negative; [all] gives the window from the epoch up to now;
    a zero duration counts as no [--past] at all. The most recent event is
    not looked up. *)
Theorem past_sets_the_window_whatever_the_dates :
  forall (guild : Z) (args : RenderArgs) (clock : Clock) (d : Db),
    (forall secs,
        past args = Some (PastDelta secs) -> secs <> 0 ->
        resolve_window args clock guild d
        = if secs <? 0
          then ([SendEndBeforeStart], Return EndBeforeStart)
          else ([], Continue (utcnow clock - secs, utcnow clock)))
    /\ (past args = Some PastAll ->
        resolve_window args clock guild d
        = if utcnow clock <? 0
          then ([SendEndBeforeStart], Return EndBeforeStart)
          else ([], Continue (0, utcnow clock)))
    /\ (past args = Some (PastDelta 0) ->
        resolve_window args clock guild d
        = resolve_window (with_past None args) clock guild d).
Proof.
  intros guild args clock d. split; [|split].
  - intros secs P NZ. unfold resolve_window. rewrite P. simpl.
    replace (secs =? 0) with false by (symmetry; apply Z.eqb_neq; exact NZ).
    simpl.
    destruct (secs <? 0) eqn:S; [apply Z.ltb_lt in S|apply Z.ltb_ge in S].
    + replace (utcnow clock <? utcnow clock - secs) with true
        by (symmetry; apply Z.ltb_lt; lia).
      reflexivity.
    + replace (utcnow clock <? utcnow clock - secs) with false
        by (symmetry; apply Z.ltb_ge; lia).
      reflexivity.
  - intros P. unfold resolve_window. rewrite P. simpl.
    destruct (utcnow clock <? 0); reflexivity.
  - intros P. unfold resolve_window. rewrite P. reflexivity.
Qed.

(** X12. A completed render counts towards the usage of its guild from then
    on: for every later window, the usage is what it was plus the cost of
    the render when the time of recording falls in the window, and what it
    was otherwise; the usage of other guilds, the events and the cursors
    are as before, and the record is committed. *)
Theorem completed_render_counts_towards_the_usage :
  forall (guild author : Z) (args : RenderArgs) (clock : Clock) (d : Db)
         (trace : list Effect) (d' : Db),
    render guild author args clock d = (Rendered, trace, d') ->
    let cost := duration args * fps args * (size args * size args) in
    (forall start end_,
        db.get_pixel_usage guild start end_ d'
        = db.get_pixel_usage guild start end_ d
          + (if (start <=? now_recorded clock) && (now_recorded clock <? end_)
             then cost else 0))
    /\ (forall guild' start end_,
           guild' <> guild ->
           db.get_pixel_usage guild' start end_ d'
           = db.get_pixel_usage guild' start end_ d)
    /\ snitch_channel (conn d') = snitch_channel (conn d)
    /\ event (conn d') = event (conn d)
    /\ disk d' = conn d'.
Proof.
  intros guild author args clock d trace d' R cost.
  apply render_cases in R. cbv zeta in R.
  destruct R as [(O & _)|[(O & _)|[(O & _)|(pre & a & b & _ & _ & R)]]];
    try discriminate.
  destruct R as [(O & _)|[(O & _)|[(O & _)|[(O & _)|[(O & _)|R]]]]];
    try discriminate.
  destruct R as (_ & _ & _ & _ & _ & _ & _ & ->). fold cost.
  split; [|split; [|repeat split]].
  - intros start end_. rewrite usage_after_add_render_history.
    rewrite Z.eqb_refl. reflexivity.
  - intros guild' start end_ NE. rewrite usage_after_add_render_history.
    replace (guild =? guild') with false
      by (symmetry; apply Z.eqb_neq; congruence).
    simpl. lia.
Qed.

(** X13. The per-request limit bounds the product, not the size: a request
    whose duration times frame rate is zero or negative is never refused
    for its size, however large, and when it is rendered the usage of the
    guild does not go up. *)
Theorem pixel_limit_is_no_bound_on_the_size :
  forall (guild author : Z) (args : RenderArgs) (clock : Clock) (d : Db)
         (o : Outcome) (trace : list Effect) (d' : Db),
    duration args * fps args <= 0 ->
    render guild author args clock d = (o, trace, d') ->
    o <> TooManyPixels
    /\ (o = Rendered ->
        forall start end_,
          db.get_pixel_usage guild start end_ d'
          <= db.get_pixel_usage guild start end_ d).
Proof.
  intros guild author args clock d o trace d' NP R.
  assert (duration args * fps args * (size args * size args) <= 0) as C
    by nia.
  apply render_cases in R. cbv zeta in R.
  destruct R as [(-> & _)|[(-> & _)|[(-> & _)|(pre & a & b & _ & _ & R)]]];
    try (split; [discriminate|intros; discriminate]).
  destruct R as [(-> & _)|[(-> & _)|[(-> & _ & _ & V & _)|[(-> & _)|
    [(-> & _)|(-> & _ & _ & _ & _ & _ & _ & ->)]]]]];
    try (split; [discriminate|intros; discriminate]).
  - unfold PIXEL_LIMIT_VIDEO in V. lia.
  - split; [discriminate|]. intros _ start end_.
    rewrite usage_after_add_render_history.
    destruct ((guild =? guild) && (start <=? now_recorded clock)
              && (now_recorded clock <? end_)); lia.
Qed.

(** X14. The video goes to the log channel as well exactly when the render
    completed and the author is not the one hard-coded id; no other
    outcome sends anything there. *)
Theorem video_is_logged_unless_the_author_is_exempt :
  forall (guild author : Z) (args : RenderArgs) (clock : Clock) (d : Db)
         (o : Outcome) (trace : list Effect) (d' : Db),
    render guild author args clock d = (o, trace, d') ->
    (In LogVideo trace <-> o = Rendered /\ author <> 216008405758771200).
Proof.
  intros guild author args clock d o trace d' R.
  apply render_cases in R. cbv zeta in R.
  destruct R as [(-> & -> & _)|[(-> & -> & _)|[(-> & -> & _)|
    (pre & a & b & P & _ & R)]]].
  1-3: split; [simpl; intuition discriminate|intros [? _]; discriminate].
  assert (~ In LogVideo pre) as NP
    by (destruct P; subst; simpl; intuition discriminate).
  destruct R as [(-> & _ & -> & _)|[(-> & _ & _ & -> & _)|
    [(-> & _ & _ & _ & -> & _)|[(-> & _ & _ & _ & _ & -> & _)|
    [(-> & _ & _ & _ & _ & _ & -> & _)|
     (-> & _ & _ & _ & _ & _ & -> & _)]]]]].
  1-5: split; [intros I; apply in_app_or in I; destruct I as [I|I];
                [tauto|simpl in I; intuition discriminate]
              |intros [? _]; discriminate].
  split.
  - intros I. split; [reflexivity|].
    apply in_app_or in I. destruct I as [I|I];
      [|simpl in I; intuition discriminate].
    apply in_app_or in I. destruct I as [I|I]; [tauto|].
    apply in_app_or in I. destruct I as [I|I];
      [simpl in I; intuition discriminate|].
    destruct (author =? 216008405758771200) eqn:A; simpl in I; [tauto|].
    apply Z.eqb_neq. exact A.
  - intros [_ N]. apply in_or_app. left. apply in_or_app. right.
    apply in_or_app. right.
    replace (author =? 216008405758771200) with false
      by (symmetry; apply Z.eqb_neq; exact N).
    simpl. auto.
Qed.


End MoreRenderFacts.

(** ** The [events] command *)

Lemma insert_by_t_permutation (r : Message * Event)
    (rows : list (Message * Event)) :
  Permutation (insert_by_t r rows) (r :: rows).
Proof.
  induction rows as [|r' rest IH]; simpl; [reflexivity|].
  destruct (event_t (snd r) <? event_t (snd r')); [|reflexivity].
  rewrite IH. apply perm_swap.
Qed.

Lemma order_by_t_desc_permutation (rows : list (Message * Event)) :
  Permutation (order_by_t_desc rows) rows.
Proof.
  induction rows as [|r rest IH]; simpl; [reflexivity|].
  rewrite insert_by_t_permutation, IH. reflexivity.
Qed.

Lemma insert_by_t_sorted (r : Message * Event)
    (rows : list (Message * Event)) :
  StronglySorted newer_first rows ->
  StronglySorted newer_first (insert_by_t r rows).
Proof.
  induction 1 as [|r' rest S IH F]; simpl.
  - constructor; constructor.
  - destruct (event_t (snd r) <? event_t (snd r')) eqn:L.
    + apply Z.ltb_lt in L. constructor; [exact IH|].
      eapply Permutation_Forall;
        [symmetry; apply insert_by_t_permutation|].
      constructor; [unfold newer_first; lia|exact F].
    + apply Z.ltb_ge in L. constructor; [constructor; assumption|].
      constructor; [exact L|].
      eapply Forall_impl; [|exact F]. unfold newer_first. intros; lia.
Qed.

Lemma order_by_t_desc_sorted (rows : list (Message * Event)) :
  StronglySorted newer_first (order_by_t_desc rows).
Proof.
  induction rows as [|r rest IH]; simpl; [constructor|].
  apply insert_by_t_sorted. exact IH.
Qed.

Lemma in_firstn {A : Type} (n : nat) (l : list A) (x : A) :
  In x (firstn n l) -> In x l.
Proof.
  revert n. induction l as [|a l IH]; intros [|n]; simpl; try tauto.
  intros [->|I]; eauto.
Qed.

Lemma firstn_sorted {A : Type} (R : A -> A -> Prop) (n : nat) (l : list A) :
  StronglySorted R l -> StronglySorted R (firstn n l).
Proof.
  intros S. revert n. induction S as [|a l S IH F]; intros [|n]; simpl;
    try constructor; auto.
  rewrite Forall_forall in *. intros x I. apply F.
  eapply in_firstn. exact I.
Qed.

Lemma sorted_firstn_skipn {A : Type} (R : A -> A -> Prop) (n : nat)
    (l : list A) (a b : A) :
  StronglySorted R l -> In a (firstn n l) -> In b (skipn n l) -> R a b.
Proof.
  intros S. revert n. induction S as [|x l S IH F]; intros [|n]; simpl;
    try tauto.
  intros [->|Ia] Ib.
  - rewrite Forall_forall in F. apply F.
    rewrite <- (firstn_skipn n l). apply in_or_app. right. exact Ib.
  - eapply IH; eauto.
Qed.

(** The query of [events]: at most ten rows, each a row of the guild that
    meets the condition, newest first, and no row that meets the condition
    is left out unless ten rows at least as recent are listed. *)
Lemma select_events_spec (guild : Z) (where_ : Event -> bool) (d : Db) :
  let rows := select_events guild where_ d in
  (List.length rows <= 10)%nat
  /\ (forall r, In r rows ->
                In r (event (conn d)) /\ message_guild (fst r) = guild
                /\ where_ (snd r) = true)
  /\ StronglySorted newer_first rows
  /\ (forall r, In r (event (conn d)) -> message_guild (fst r) = guild ->
                where_ (snd r) = true ->
                In r rows
                \/ (List.length rows = 10%nat
                    /\ forall r', In r' rows ->
                                  event_t (snd r) <= event_t (snd r')))
  /\ (rows = [] <->
      forall r, In r (event (conn d)) -> message_guild (fst r) = guild ->
                where_ (snd r) = false).
Proof.
  intros rows. subst rows. unfold select_events.
  set (matching := filter (fun me => (message_guild (fst me) =? guild)
                                     && where_ (snd me)) (event (conn d))).
  set (sorted := order_by_t_desc matching).
  assert (forall r, In r sorted <->
                    In r (event (conn d)) /\ message_guild (fst r) = guild
                    /\ where_ (snd r) = true) as M.
  { intros r. subst sorted matching. split.
    - intros I.
      apply (Permutation_in _ (order_by_t_desc_permutation _)) in I.
      apply filter_In in I. destruct I as [I B].
      apply andb_true_iff in B. destruct B as [G W].
      apply Z.eqb_eq in G. auto.
    - intros (I & G & W).
      apply (Permutation_in _ (Permutation_sym
                                 (order_by_t_desc_permutation _))).
      apply filter_In. split; [exact I|].
      apply andb_true_iff. split; [apply Z.eqb_eq; exact G|exact W]. }
  pose proof (order_by_t_desc_sorted matching) as S. fold sorted in S.
  split; [apply firstn_le_length|].
  split; [intros r I; apply M; eapply in_firstn; exact I|].
  split; [apply firstn_sorted; exact S|].
  split.
  - intros r I G W.
    assert (In r sorted) as IS by (apply M; auto).
    rewrite <- (firstn_skipn 10 sorted) in IS. apply in_app_or in IS.
    destruct IS as [IS|IS]; [left; exact IS|right].
    split.
    + rewrite length_firstn. apply Nat.min_l.
      destruct (Nat.le_gt_cases 10 (List.length sorted)) as [L|L];
        [exact L|].
      rewrite skipn_all2 in IS by lia. destruct IS.
    + intros r' I'. apply (sorted_firstn_skipn newer_first 10 sorted r' r S);
        assumption.
  - split.
    + intros E r I G. destruct (where_ (snd r)) eqn:W; [|reflexivity].
      assert (In r sorted) as IS by (apply M; auto).
      destruct sorted as [|x rest]; [destruct IS|discriminate].
    + intros N. destruct sorted as [|x rest] eqn:E; [reflexivity|].
      destruct (proj1 (M x) (or_introl eq_refl)) as (I & G & W).
      rewrite (N x I G) in W. discriminate.
Qed.

Lemma reply_of_events (rows rows' : list (Message * Event)) :
  reply_of rows = ReplyEvents rows' -> rows' = rows /\ rows <> [].
Proof.
  destruct rows; simpl; intros E; inversion E. split; [reflexivity|].
  discriminate.
Qed.

Lemma reply_of_no_events (rows : list (Message * Event)) :
  reply_of rows = ReplyNoEvents <-> rows = [].
Proof. destruct rows; simpl; split; intros E; try discriminate; auto. Qed.

Section EventsFacts.

Variable int : string -> option Z.

Lemma events_at_is_no_refusal (guild : Z) (x : string) (y : option string)
    (z : string) (d : Db) :
  events_at int guild x y z d <> ReplyExactlyOne
  /\ events_at int guild x y z d <> RaisedUnboundEvents.
Proof.
  unfold events_at.
  destruct (int x); [|split; discriminate].
  destruct y as [s|].
  - destruct (negb (String.eqb s "")).
    + destruct (int s); [|split; discriminate].
      destruct (int z); [|split; discriminate].
      unfold reply_of. destruct (select_events _ _ _); split; discriminate.
    + destruct (int z); [|split; discriminate].
      unfold reply_of. destruct (select_events _ _ _); split; discriminate.
  - destruct (int z); [|split; discriminate].
    unfold reply_of. destruct (select_events _ _ _); split; discriminate.
Qed.

(** X15. [events] wants exactly one of a name and a non-empty location:
    it refuses when both or neither are there and only then; the empty
    name counts as a name. Past that check the handler always has its
    rows: the branch that would leave them unassigned is never taken. A
    location of one word, or of more than three, is refused as such. *)
Theorem events_wants_exactly_one_of_name_and_location :
  forall (guild : Z) (args : EventsArgs) (d : Db),
    (events int guild args d = ReplyExactlyOne
     <-> name_given (events_name args)
         = truthy_location (events_location args))
    /\ events int guild args d <> RaisedUnboundEvents
    /\ (forall l,
           events_name args = None -> events_location args = Some l ->
           (List.length l = 1 \/ 3 < List.length l)%nat ->
           events int guild args d = ReplyInvalidLocation l).
Proof.
  intros guild args d. unfold events.
  assert (forall rows, reply_of rows <> ReplyExactlyOne
                       /\ reply_of rows <> RaisedUnboundEvents) as RO
    by (intros [|r rows]; split; discriminate).
  destruct (events_name args) as [name|]; simpl.
  - destruct (truthy_location (events_location args)); simpl.
    + split; [split; reflexivity|]. split; [discriminate|].
      intros l N. discriminate.
    + destruct (RO (select_events guild
                      (fun e => sql_text_eq (event_snitch_name e) name) d))
        as [A B].
      split; [split; [contradiction|discriminate]|]. split; [exact B|].
      intros l N. discriminate.
  - destruct (events_location args) as [[|x [|y [|z [|u l]]]]|]; simpl.
    + split; [split; reflexivity|]. split; [discriminate|].
      intros l _ E L. inversion E; subst. simpl in L. lia.
    + split; [split; discriminate|]. split; [discriminate|].
      intros l _ E _. congruence.
    + destruct (events_at_is_no_refusal guild x None y d) as [A B].
      split; [split; [contradiction|discriminate]|]. split; [exact B|].
      intros l _ E L. inversion E; subst. simpl in L. lia.
    + destruct (events_at_is_no_refusal guild x (Some y) z d) as [A B].
      split; [split; [contradiction|discriminate]|]. split; [exact B|].
      intros l _ E L. inversion E; subst. simpl in L. lia.
    + split; [split; discriminate|]. split; [discriminate|].
      intros l' _ E _. congruence.
    + split; [split; reflexivity|]. split; [discriminate|].
      intros l _ E. discriminate.
Qed.

(** X16. A search by name lists at most ten events, newest first, all of
    the guild and all on a snitch of exactly that name (an unnamed snitch
    is never listed, the empty name finds the snitches named with the
    empty string); an event of that name that is not listed is no more
    recent than any of the ten that are; and it answers that there are no
    events exactly when the guild has none of that name. *)
Theorem events_by_name_lists_the_ten_most_recent :
  forall (guild : Z) (name : string) (location : option (list string))
         (d : Db),
    truthy_location location = false ->
    let reply :=
      events int guild
        {| events_name := Some name; events_location := location |} d in
    (reply = ReplyNoEvents
     <-> forall r, In r (event (conn d)) -> message_guild (fst r) = guild ->
                   event_snitch_name (snd r) <> Some name)
    /\ (forall rows,
           reply = ReplyEvents rows ->
           rows <> [] /\ (List.length rows <= 10)%nat
           /\ StronglySorted newer_first rows
           /\ (forall r, In r rows ->
                         In r (event (conn d))
                         /\ message_guild (fst r) = guild
                         /\ event_snitch_name (snd r) = Some name)
           /\ (forall r, In r (event (conn d)) ->
                         message_guild (fst r) = guild ->
                         event_snitch_name (snd r) = Some name ->
                         In r rows
                         \/ (List.length rows = 10%nat
                             /\ forall r', In r' rows ->
                                   event_t (snd r) <= event_t (snd r')))).
Proof.
  intros guild name location d T reply.
  assert (forall e, sql_text_eq (event_snitch_name e) name = true
                    <-> event_snitch_name e = Some name) as W.
  { intros e. unfold sql_text_eq. destruct (event_snitch_name e) as [n|].
    - rewrite String.eqb_eq. split; congruence.
    - split; discriminate. }
  assert (reply
          = reply_of (select_events guild
                        (fun e => sql_text_eq (event_snitch_name e) name) d))
    as E by (subst reply; unfold events; simpl; rewrite T; reflexivity).
  destruct (select_events_spec guild
              (fun e => sql_text_eq (event_snitch_name e) name) d)
    as (S1 & S2 & S3 & S4 & S5).
  cbv zeta in *. rewrite E. split.
  - rewrite reply_of_no_events, S5. split; intros H r I G.
    + intros N. apply W in N. rewrite (H r I G) in N. discriminate.
    + destruct (sql_text_eq (event_snitch_name (snd r)) name) eqn:Q;
        [|reflexivity].
      apply W in Q. destruct (H r I G Q).
  - intros rows R. apply reply_of_events in R. destruct R as [-> NE].
    split; [exact NE|]. split; [exact S1|]. split; [exact S3|]. split.
    + intros r I. destruct (S2 r I) as (A & B & C). apply W in C. auto.
    + intros r I G N. apply S4; auto. apply W. exact N.
Qed.

(** X17. A search by location reads its words as x, y, z (or x, z) and
    matches them against the columns x, z, y of the table: the second
    column is compared with the last word. The words are converted in
    the order x, y, z, and the first that is no integer is the one
    reported; an empty middle word is dropped, as if two had been given. *)
Theorem events_by_location_matches_x_z_y :
  forall (guild : Z) (d : Db) (x y z : string),
    let three :=
      events int guild
        {| events_name := None; events_location := Some [x; y; z] |} d in
    let two :=
      events int guild
        {| events_name := None; events_location := Some [x; z] |} d in
    (int x = None -> three = ReplyInvalidX x /\ two = ReplyInvalidX x)
    /\ (forall x', int x = Some x' -> y <> "" -> int y = None ->
                   three = ReplyInvalidY y)
    /\ (forall x', int x = Some x' -> int z = None ->
                   two = ReplyInvalidZ z
                   /\ (y = "" \/ int y <> None -> three = ReplyInvalidZ z))
    /\ (y = "" -> three = two)
    /\ (forall x' y' z' rows,
           int x = Some x' -> int y = Some y' -> y <> "" ->
           int z = Some z' -> three = ReplyEvents rows ->
           forall r, In r rows ->
                     message_guild (fst r) = guild
                     /\ event_x (snd r) = x' /\ event_y (snd r) = z'
                     /\ event_z (snd r) = y')
    /\ (forall x' z' rows,
           int x = Some x' -> int z = Some z' -> two = ReplyEvents rows ->
           forall r, In r rows ->
                     message_guild (fst r) = guild
                     /\ event_x (snd r) = x' /\ event_y (snd r) = z').
Proof.
  intros guild d x y z three two. subst three two. unfold events. simpl.
  unfold events_at.
  split; [|split; [|split; [|split; [|split]]]].
  - intros ->. auto.
  - intros x' -> NE ->.
    replace (String.eqb y "") with false
      by (symmetry; apply String.eqb_neq; exact NE).
    reflexivity.
  - intros x' -> ->. split; [reflexivity|].
    intros [->|N]; [reflexivity|].
    destruct (negb (String.eqb y "")); [|reflexivity].
    destruct (int y); [reflexivity|congruence].
  - intros ->. simpl. reflexivity.
  - intros x' y' z' rows -> -> NE -> R r I.
    replace (String.eqb y "") with false in R
      by (symmetry; apply String.eqb_neq; exact NE).
    simpl in R. apply reply_of_events in R. destruct R as [-> _].
    destruct (select_events_spec guild
                (fun e => (event_x e =? x') && (event_y e =? z')
                          && (event_z e =? y')) d) as (_ & S2 & _).
    destruct (S2 r I) as (_ & G & W).
    apply andb_true_iff in W. destruct W as [W W3].
    apply andb_true_iff in W. destruct W as [W1 W2].
    rewrite Z.eqb_eq in *. auto.
  - intros x' z' rows -> -> R r I.
    apply reply_of_events in R. destruct R as [-> _].
    destruct (select_events_spec guild
                (fun e => (event_x e =? x') && (event_y e =? z')) d)
      as (_ & S2 & _).
    destruct (S2 r I) as (_ & G & W).
    apply andb_true_iff in W. destruct W as [W1 W2].
    rewrite Z.eqb_eq in *. auto.
Qed.

End EventsFacts.

(** ** [export_to_sql] *)

Lemma same_place_sym (a b : Snitch) : same_place a b = same_place b a.
Proof.
  unfold same_place.
  destruct (snitch_world a), (snitch_world b); try reflexivity.
  rewrite (String.eqb_sym s s0), (Z.eqb_sym (snitch_x a)),
    (Z.eqb_sym (snitch_y a)), (Z.eqb_sym (snitch_z a)).
  reflexivity.
Qed.

Lemma ordered_pairs_snoc {A : Type} (R : A -> A -> Prop) (l : list A) (x : A) :
  ForallOrdPairs R l -> Forall (fun a => R a x) l ->
  ForallOrdPairs R (l ++ [x]).
Proof.
  induction 1 as [|a l F P IH]; intros H; simpl.
  - constructor; constructor.
  - inversion H; subst. constructor; [|apply IH; assumption].
    apply Forall_app. split; [exact F|]. constructor; [assumption|constructor].
Qed.

Lemma insert_or_ignore_cases (table : list Snitch) (snitch : Snitch) :
  (insert_or_ignore table snitch = table
   /\ exists row, In row table /\ same_place snitch row = true)
  \/ (insert_or_ignore table snitch = table ++ [snitch]
      /\ forall row, In row table -> same_place snitch row = false).
Proof.
  unfold insert_or_ignore.
  destruct (existsb (same_place snitch) table) eqn:E.
  - left. split; [reflexivity|]. apply existsb_exists in E. exact E.
  - right. split; [reflexivity|]. intros row I.
    destruct (same_place snitch row) eqn:S; [|reflexivity].
    assert (existsb (same_place snitch) table = true) as T
      by (apply existsb_exists; eauto).
    congruence.
Qed.

Lemma fold_insert_or_ignore (snitches table : list Snitch) :
  ForallOrdPairs (fun a b => same_place a b = false) table ->
  let out := fold_left insert_or_ignore snitches table in
  ForallOrdPairs (fun a b => same_place a b = false) out
  /\ (forall row, In row table -> In row out)
  /\ (forall row, In row out -> In row table \/ In row snitches)
  /\ (forall s, In s snitches ->
                In s out
                \/ exists row, In row out /\ same_place s row = true)
  /\ (forall pre s post,
         snitches = pre ++ s :: post ->
         (forall row, In row table -> same_place s row = false) ->
         (forall p, In p pre -> same_place s p = false) ->
         In s out).
Proof.
  revert table. induction snitches as [|x rest IH]; intros table P; simpl.
  - split; [exact P|]. split; [auto|]. split; [auto|].
    split; [intros s []|]. intros [|p pre] s post E; discriminate.
  - destruct (insert_or_ignore_cases table x) as [[E C]|[E C]]; rewrite E.
    + destruct (IH table P) as (I1 & I2 & I3 & I4 & I5). cbv zeta in *.
      split; [exact I1|]. split; [exact I2|].
      split; [intros row I; destruct (I3 row I); auto|].
      split.
      * intros s [<-|I]; [|apply I4; exact I].
        destruct C as (row & R & S). right. exists row. auto.
      * intros [|p pre] s post Q T B; simpl in Q; inversion Q; subst.
        -- destruct C as (row & R & S). rewrite (T row R) in S. discriminate.
        -- eapply I5; eauto. intros q Iq. apply B. right. exact Iq.
    + assert (ForallOrdPairs (fun a b => same_place a b = false)
                (table ++ [x])) as P'.
      { apply ordered_pairs_snoc; [exact P|].
        rewrite Forall_forall. intros a I. rewrite same_place_sym.
        apply C. exact I. }
      destruct (IH (table ++ [x]) P') as (I1 & I2 & I3 & I4 & I5).
      cbv zeta in *.
      split; [exact I1|].
      split; [intros row I; apply I2; apply in_or_app; auto|].
      split.
      * intros row I. destruct (I3 row I) as [J|J]; [|auto].
        apply in_app_or in J. destruct J as [J|[<-|[]]]; auto.
      * split.
        -- intros s [<-|I]; [|apply I4; exact I].
           left. apply I2. apply in_or_app. right. left. reflexivity.
        -- intros [|p pre] s post Q T B; simpl in Q; inversion Q; subst.
           ++ apply I2. apply in_or_app. right. left. reflexivity.
           ++ eapply I5; eauto.
              ** intros row I. apply in_app_or in I.
                 destruct I as [I|[<-|[]]]; [apply T; exact I|].
                 apply B. left. reflexivity.
              ** intros q Iq. apply B. right. exact Iq.
Qed.

Lemma fold_append {A : Type} (l acc : list A) :
  fold_left (fun table e => table ++ [e]) l acc = acc ++ l.
Proof.
  revert acc. induction l as [|a l IH]; intros acc; simpl.
  - rewrite app_nil_r. reflexivity.
  - rewrite IH, <- app_assoc. reflexivity.
Qed.

(** X18. The exported database holds every event, in order, and one snitch
    per place: no two rows of its snitch table are in the same world at
    the same coordinates, every row is one of the snitches given, every
    snitch given is there itself or has a row at its place, and a snitch
    with nothing at its place before it in the iteration is the one that
    is kept. *)
Theorem export_to_sql_keeps_one_snitch_per_place :
  forall (snitches : list Snitch) (events : list Event),
    let out := export_to_sql snitches events in
    exported_event out = events
    /\ ForallOrdPairs (fun a b => same_place a b = false)
         (exported_snitch out)
    /\ (forall row, In row (exported_snitch out) -> In row snitches)
    /\ (forall s, In s snitches ->
                  In s (exported_snitch out)
                  \/ exists row, In row (exported_snitch out)
                                 /\ same_place s row = true)
    /\ (forall pre s post,
           snitches = pre ++ s :: post ->
           (forall p, In p pre -> same_place s p = false) ->
           In s (exported_snitch out)).
Proof.
  intros snitches events out. subst out. unfold export_to_sql. simpl.
  split; [apply fold_append|].
  destruct (fold_insert_or_ignore snitches [])
    as (I1 & _ & I3 & I4 & I5); [constructor|]. cbv zeta in *.
  split; [exact I1|]. split.
  - intros row I. destruct (I3 row I) as [[]|J]. exact J.
  - split; [exact I4|]. intros pre s post E B.
    eapply I5; eauto. intros row [].
Qed.

(** ** The query of [import_snitches] *)

Lemma count_char_append (c : Ascii.ascii) (a b : string) :
  count_char c (a ++ b) = (count_char c a + count_char c b)%nat.
Proof. induction a as [|x a IH]; simpl; [reflexivity|]. rewrite IH. lia. Qed.

Lemma length_string_times_question (n : nat) :
  String.length (string_times "?, " n) = (3 * n)%nat.
Proof. induction n as [|n IH]; simpl in *; lia. Qed.

Lemma substring_all (s : string) :
  substring 0 (String.length s) s = s.
Proof. induction s as [|c s IH]; simpl; congruence. Qed.

Lemma substring_append_prefix (a b : string) (n : nat) :
  substring 0 (String.length a + n) (a ++ b) = (a ++ substring 0 n b)%string.
Proof. induction a as [|c a IH]; simpl; congruence. Qed.

Lemma drop_last_two_placeholders (n : nat) :
  drop_last_two (string_times "?, " (S n))
  = ("?" ++ string_times ", ?" n)%string.
Proof.
  unfold drop_last_two. rewrite length_string_times_question.
  replace (3 * S n - 2)%nat with (S (3 * n)) by lia.
  induction n as [|n IH]; [reflexivity|].
  change (string_times "?, " (S (S n)))
    with ("?, " ++ string_times "?, " (S n))%string.
  replace (S (3 * S n)) with (String.length "?, " + S (3 * n))%nat
    by (simpl; lia).
  rewrite substring_append_prefix, IH. reflexivity.
Qed.

Lemma count_char_placeholders (c : Ascii.ascii) (n : nat) :
  count_char c (string_times ", ?" n) = (n * count_char c ", ?")%nat.
Proof.
  induction n as [|n IH]; [reflexivity|].
  change (string_times ", ?" (S n)) with (", ?" ++ string_times ", ?" n)%string.
  rewrite count_char_append, IH. lia.
Qed.

(** X19. For a list of groups without [all], the query [import_snitches]
    builds is the opening of an [IN] list that is never closed: one
    question mark per group, separated by commas, after the one opening
    parenthesis of the text, and no closing parenthesis anywhere. With
    [all] among the groups the condition is [1]. *)
Theorem import_query_leaves_its_parenthesis_open :
  forall groups : list string,
    (existsb (fun group => String.eqb group "all") groups = true ->
     import_query groups = "SELECT * FROM snitches_v2 WHERE 1")
    /\ (existsb (fun group => String.eqb group "all") groups = false ->
        groups <> [] ->
        import_query groups
        = ("SELECT * FROM snitches_v2 WHERE group_name IN (?"
           ++ string_times ", ?" (List.length groups - 1))%string
        /\ count_char (char_of "(") (import_query groups) = 1%nat
        /\ count_char (char_of ")") (import_query groups) = 0%nat
        /\ count_char (char_of "?") (import_query groups) = List.length groups).
Proof.
  intros groups. unfold import_query, group_filter. split.
  - intros ->. reflexivity.
  - intros -> NE. destruct groups as [|g rest]; [congruence|].
    change (List.length (g :: rest)) with (S (List.length rest)).
    rewrite drop_last_two_placeholders.
    replace (S (List.length rest) - 1)%nat with (List.length rest) by lia.
    split; [reflexivity|].
    change ("SELECT * FROM snitches_v2 WHERE "
            ++ "group_name IN ("
            ++ "?" ++ string_times ", ?" (List.length rest))%string
      with ("SELECT * FROM snitches_v2 WHERE group_name IN (?"
            ++ string_times ", ?" (List.length rest))%string.
    rewrite !count_char_append, !count_char_placeholders.
    simpl. repeat split; lia.
Qed.

(** ** The theorems at work, on the stand-ins *)

#[local] Existing Instance toy.

Example scan_stops_at_the_cursor :
  scan (Some 4) [msg 5 10 ping; msg 4 10 chat; msg 3 10 ping]
  = [(msg 5 10 ping, toy_event ping)].
Proof. reflexivity. Qed.

Example scan_without_cursor_reads_everything :
  scan None [msg 5 10 ping; msg 4 10 chat; msg 3 10 ping]
  = [(msg 5 10 ping, toy_event ping); (msg 3 10 ping, toy_event ping)].
Proof. reflexivity. Qed.

Example default_window_of_the_most_recent_event :
  resolve_window default_args example_clock 1 quiet_day
  = ([QueryMostRecentEvent], Continue (-800, 1000)).
Proof. reflexivity. Qed.

Example render_refuses_an_oversized_request :
  fst (fst (render 1 77 (with_quality 1000000000 20 5 default_args)
              example_clock quiet_day)) = TooManyPixels.
Proof. vm_compute. reflexivity. Qed.

(** Two messages arrive during the startup of [deferring], one while the
    channels are backfilled and one while the queue is drained. *)
Lemma deferred_messages_witness :
  database
    (run [Arrive (msg 8 10 ping); Resume example_discord;
          Resume example_discord; Resume example_discord;
          Arrive (msg 9 20 ping); Resume example_discord;
          Resume example_discord; Resume example_discord] deferring)
  = live_sequential [msg 8 10 ping; msg 9 20 ping]
      (database (run (repeat (Resume example_discord) 6) deferring)).
Proof.
  pose proof
    (deferred_messages_are_indexed_in_arrival_order
       [Arrive (msg 8 10 ping); Resume example_discord;
        Resume example_discord; Resume example_discord;
        Arrive (msg 9 20 ping); Resume example_discord;
        Resume example_discord; Resume example_discord]
       deferring [row 10 (Some 3); row 20 None]
       eq_refl eq_refl eq_refl) as T.
  cbv zeta in T. destruct T as [T _].
  destruct (T eq_refl) as [_ D]. exact D.
Defined.

Lemma unindexed_channel_witness :
  maybe_index_message (msg 7 20 ping) two_channels = two_channels.
Proof.
  refine (proj1 (live_message_in_unindexed_channel_is_discarded
                   (msg 7 20 ping) two_channels _)).
  right. exists (row 20 None). split; reflexivity.
Defined.

Lemma zero_cursor_witness :
  maybe_index_message (msg 7 20 ping) (fresh [row 20 (Some 0)])
  = fresh [row 20 (Some 0)].
Proof.
  destruct zero_cursor_is_treated_as_null as [T _].
  apply (T (msg 7 20 ping) (fresh [row 20 (Some 0)]) (row 20 (Some 0)));
    reflexivity.
Defined.

Lemma exclusive_boundary_witness :
  exists s',
    index_channel (row 10 (Some 4)) (example_discord 10)
      (init (fresh [row 10 (Some 4)]))
    = (s', Some [(msg 5 10 ping, toy_event ping)])
    /\ event (conn (database s')) = [(msg 5 10 ping, toy_event ping)]
    /\ disk (database s') = tables [row 10 (Some 4)].
Proof.
  assert (4 <> 0) as NZ by lia.
  pose proof
    (index_channel_exclusive_boundary (row 10 (Some 4)) (example_discord 10)
       (init (fresh [row 10 (Some 4)])) 4
       [msg 5 10 ping; msg 4 10 chat; msg 3 10 ping]
       eq_refl eq_refl (or_introl NZ)) as T.
  cbv zeta in T. destruct T as [T _]. exact T.
Defined.

Lemma cursor_is_newest_witness :
  exists s' events known',
    index_channel (row 10 None) (example_discord 10) (init two_channels)
    = (s', Some events)
    /\ db.get_snitch_channel 10 (database s') = Some known'
    /\ last_indexed_id known' = Some 5.
Proof.
  destruct (index_channel_cursor_is_newest (row 10 None) (example_discord 10)
              (init two_channels)) as [T _].
  apply (T (msg 5 10 ping) [msg 4 10 chat; msg 3 10 ping] (row 10 None));
    reflexivity.
Defined.

Lemma window_defaults_witness :
  resolve_window default_args example_clock 1 quiet_day
  = ([QueryMostRecentEvent], Continue (1000 - 30 * 60, 1000)).
Proof.
  destruct (render_window_defaults 1 77 default_args example_clock quiet_day
              eq_refl) as [T _].
  apply (T (toy_event ping)); reflexivity.
Defined.

Lemma export_sql_witness :
  snd (render 1 77 export_args example_clock quiet_day) = quiet_day
  /\ fst (fst (render 1 77 export_args example_clock quiet_day))
     = ExportedSql.
Proof.
  pose proof
    (export_sql_bypasses_the_limits 1 77 export_args example_clock quiet_day
       (fst (fst (render 1 77 export_args example_clock quiet_day)))
       (snd (fst (render 1 77 export_args example_clock quiet_day)))
       (snd (render 1 77 export_args example_clock quiet_day))
       eq_refl eq_refl) as T.
  destruct T as [D _]. split; [exact D|reflexivity].
Defined.

Lemma render_admission_witness :
  render_history
    (conn (snd (render 1 77 default_args example_clock quiet_day)))
  = [{| history_guild := 1; history_pixels := 49000000;
        history_timestamp := 1000002 |}].
Proof.
  pose proof
    (render_admission_compares_past_usage_alone 1 77 default_args
       example_clock quiet_day
       (fst (fst (render 1 77 default_args example_clock quiet_day)))
       (snd (fst (render 1 77 default_args example_clock quiet_day)))
       (snd (render 1 77 default_args example_clock quiet_day))
       eq_refl) as T.
  cbv zeta in T. destruct T as (_ & _ & _ & _ & T).
  destruct (T eq_refl) as [H _]. exact H.
Defined.

Lemma startup_commit_witness :
  disk (database (on_ready_step example_discord deferring))
  = disk (database deferring)
  /\ event (conn (database (on_ready_step example_discord deferring)))
     = [(msg 5 10 ping, toy_event ping)].
Proof.
  destruct (startup_backfill_commits_once_after_all_channels
              example_discord deferring) as [T _].
  destruct (T (row 10 (Some 3)) [row 20 None] eq_refl) as [D _].
  split; [exact D|reflexivity].
Defined.

Lemma unreadable_channel_witness :
  on_ready_step one_unreadable
    (on_ready_step one_unreadable (init two_channels))
  = with_ready (PcBackfill [row 20 None])
      (say (PrintCouldntIndex 10 1)
         (on_ready_step one_unreadable (init two_channels))).
Proof.
  destruct (unreadable_channel_is_skipped_at_startup_only one_unreadable
              (on_ready_step one_unreadable (init two_channels))) as [T _].
  apply (T (row 10 None) [row 20 None]); reflexivity.
Defined.

(** Against admission on usage plus cost. The guild has used exactly the per-day limit in
    the past 24 hours, so that usage plus the cost of any request exceeds
    it; the request is rendered all the same and its cost recorded. *)
Lemma render_accepted_beyond_the_day_limit :
  db.get_pixel_usage 1 (1000000 - 86400) 1000001 full_day
  + 5 * 20 * (700 * 700) > PIXEL_LIMIT_DAY
  /\ fst (fst (render 1 77 default_args example_clock full_day)) = Rendered
  /\ db.get_pixel_usage 1 0 2000000
       (snd (render 1 77 default_args example_clock full_day))
     = db.get_pixel_usage 1 0 2000000 full_day + 5 * 20 * (700 * 700).
Proof.
  split; [|split]; vm_compute; reflexivity.
Qed.

(** Against a commit per channel at startup. At startup over two channels, [on_ready] has
    backfilled channel 10 and stands before channel 20: the two events and
    the cursor of channel 10 are in the connection, and nothing of them is
    committed. *)
Lemma startup_backfill_moves_on_uncommitted :
  let s0 := on_ready_step example_discord (init two_channels) in
  let s1 := on_ready_step example_discord s0 in
  ready s0 = PcBackfill [row 10 None; row 20 None]
  /\ ready s1 = PcBackfill [row 20 None]
  /\ event (conn (database s1))
     = [(msg 5 10 ping, toy_event ping); (msg 3 10 ping, toy_event ping)]
  /\ db.get_snitch_channel 10 (database s1) = Some (row 10 (Some 5))
  /\ event (disk (database s1)) = []
  /\ snitch_channel (disk (database s1)) = [row 10 None; row 20 None]
  /\ disk (database s1) <> conn (database s1).
Proof.
  cbv zeta. repeat split; try reflexivity.
  vm_compute. discriminate.
Qed.

(** Against skipping in the [index] command. The guild has an unreadable channel 10 and a
    readable channel 20 with a message: [index] returns after its refusal
    and channel 20 has not been backfilled, whereas its backfill alone would
    have set its cursor. *)
Lemma index_is_blocked_by_an_unreadable_channel :
  read_messages (one_unreadable 20) = true
  /\ index one_unreadable 1 (init two_channels)
     = (say (SendNoReadPermission 10)
          (say (SendIndexingFollowing [10; 20]) (init two_channels)),
        Returned)
  /\ db.get_snitch_channel 20
       (database (fst (index one_unreadable 1 (init two_channels))))
     = Some (row 20 None)
  /\ db.get_snitch_channel 20
       (database (fst (index_channel (row 20 None) (one_unreadable 20)
                         (init two_channels))))
     = Some (row 20 (Some 7)).
Proof. repeat split. Qed.

(** Against the default window under [--past]. With [--past 1h] and neither date, the window is
    the past hour up to now, not the half hour before the most recent event
    (at 1000); with [--past 1h] next to both dates, the dates are not used. *)
Lemma past_overrides_the_dates :
  start past_hour_args = None /\ end_ past_hour_args = None
  /\ most_recent_event quiet_day 1 = Some (toy_event ping)
  /\ resolve_window past_hour_args example_clock 1 quiet_day
     = ([], Continue (1000000 - 3600, 1000000))
  /\ resolve_window past_hour_args example_clock 1 quiet_day
     <> ([QueryMostRecentEvent], Continue (1000 - 30 * 60, 1000))
  /\ start past_and_dates_args = Some 10 /\ end_ past_and_dates_args = Some 20
  /\ resolve_window past_and_dates_args example_clock 1 quiet_day
     = ([], Continue (1000000 - 3600, 1000000)).
Proof.
  repeat split; try reflexivity. vm_compute. discriminate.
Qed.

Example backfill_without_a_matching_message :
  exists s',
    index_channel (row 10 (Some 3))
      (readable [msg 6 10 chat; msg 4 10 chat])
      (init (fresh [row 10 (Some 3)]))
    = (s', Some [])
    /\ db.get_snitch_channel 10 (database s') = Some (row 10 (Some 6))
    /\ event (conn (database s')) = [].
Proof. eexists. repeat split. Qed.

Example startup_ends_at_a_raising_history :
  let s := run (repeat (Resume one_raising) 5) (init two_channels) in
  ready s = PcRaised /\ defer_indexing s = true
  /\ database s = two_channels.
Proof. repeat split. Qed.

(** ** The other commands at work *)

Example events_lists_the_gate_newest_first :
  events toy_int 1 {| events_name := Some "gate"; events_location := None |}
    watched
  = ReplyEvents [(msg 3 10 ping, sighting (Some "gate") 1 2 3 50);
                 (msg 1 10 ping, sighting (Some "gate") 1 2 3 30);
                 (msg 5 10 ping, sighting (Some "gate") 1 2 3 20)].
Proof. reflexivity. Qed.

Example events_at_1_2_3_finds_the_door :
  events toy_int 1
    {| events_name := None; events_location := Some ["1"; "2"; "3"] |}
    watched
  = ReplyEvents [(msg 2 10 ping, sighting (Some "door") 1 3 2 40)].
Proof. reflexivity. Qed.

Example export_ignores_the_second_snitch_of_a_place :
  exported_snitch
    (export_to_sql [plain_snitch "world" 1 2 3 "gate";
                    plain_snitch "world" 4 5 6 "door";
                    plain_snitch "world" 1 2 3 "old gate"] [])
  = [plain_snitch "world" 1 2 3 "gate"; plain_snitch "world" 4 5 6 "door"].
Proof. reflexivity. Qed.

Example import_query_for_two_groups :
  import_query ["mta-citizens"; "mta-shops"]
  = "SELECT * FROM snitches_v2 WHERE group_name IN (?, ?".
Proof. reflexivity. Qed.

Lemma raising_history_witness :
  defer_indexing
    (run [Resume one_raising; Arrive (msg 8 20 ping); Resume one_raising]
       (on_ready_step one_raising (init two_channels))) = true
  /\ indexing_queue
       (run [Resume one_raising; Arrive (msg 8 20 ping); Resume one_raising]
          (on_ready_step one_raising (init two_channels)))
     = [msg 8 20 ping].
Proof.
  pose proof
    (raising_history_leaves_the_deferral_on one_raising (row 10 None)
       [row 20 None] (on_ready_step one_raising (init two_channels))
       [Arrive (msg 8 20 ping); Resume one_raising]
       eq_refl eq_refl eq_refl eq_refl) as T.
  cbv zeta in T. destruct T as (_ & D & _ & Q). split; [exact D|exact Q].
Defined.

Lemma startup_completes_witness :
  ready (run (repeat (Resume example_discord) 5) (init two_channels)) = PcDone
  /\ settled example_discord 10
       (database (run (repeat (Resume example_discord) 5)
                    (init two_channels))).
Proof.
  assert (forall c, In c (snitch_channel (conn two_channels)) ->
                    read_messages (example_discord (channel_id c)) = true ->
                    history (example_discord (channel_id c)) <> None) as H.
  { intros c [<-|[<-|[]]] _; discriminate. }
  pose proof (startup_completes_when_no_history_raises example_discord
                two_channels H) as T.
  cbv zeta in T. destruct T as (P & _ & _ & _ & S).
  split; [exact P|].
  apply (S (row 10 None)); [left; reflexivity|reflexivity].
Defined.

Lemma stored_twice_witness :
  event (conn (database (run (repeat (Resume example_discord) 4)
                           queued_and_posted)))
  = [(msg 5 10 ping, toy_event ping); (msg 5 10 ping, toy_event ping)].
Proof.
  assert (message_id (msg 5 10 ping) <> 0) as NZ by discriminate.
  assert (forall C, last_indexed_id (row 10 (Some 3)) = Some C ->
                    C = 0 \/ C < message_id (msg 5 10 ping)) as LC.
  { intros C E. inversion E. right. reflexivity. }
  pose proof
    (queued_message_read_by_backfill_is_stored_twice example_discord
       (row 10 (Some 3)) (row 10 (Some 3)) queued_and_posted
       (msg 5 10 ping) [msg 4 10 chat; msg 3 10 ping] (toy_event ping)
       eq_refl eq_refl eq_refl eq_refl eq_refl eq_refl eq_refl eq_refl
       NZ LC) as T.
  cbv zeta in T. destruct T as (_ & _ & E). exact E.
Defined.

Lemma backfill_makes_live_witness :
  event (conn (maybe_index_message (msg 9 10 ping)
                 (database (fst (index_channel (row 10 None)
                                   (example_discord 10)
                                   (init two_channels))))))
  = event (conn (database (fst (index_channel (row 10 None)
                                  (example_discord 10)
                                  (init two_channels)))))
    ++ [(msg 9 10 ping, toy_event ping)].
Proof.
  pose proof
    (backfill_makes_a_channel_live_unless_it_is_empty (row 10 None)
       (row 10 None) (example_discord 10) (init two_channels)
       (msg 9 10 ping) eq_refl eq_refl) as T.
  cbv zeta in T. destruct T as [T _].
  assert (message_id (msg 5 10 ping) <> 0) as NZ by discriminate.
  destruct (T (msg 5 10 ping) [msg 4 10 chat; msg 3 10 ping] (toy_event ping)
              eq_refl NZ eq_refl) as [E _].
  exact E.
Defined.



Lemma example_ids_are_not_zero :
  forall ch m, newest example_discord ch = Some m -> message_id m <> 0.
Proof.
  intros ch m. unfold newest, example_discord.
  destruct (ch =? 10); [intros E; inversion E; discriminate|].
  destruct (ch =? 20); intros E; inversion E; discriminate.
Qed.

Lemma index_twice_witness :
  exists s2,
    index example_discord 1
      (fst (index example_discord 1 (init two_channels)))
    = (s2, Returned)
    /\ database s2
       = database (fst (index example_discord 1 (init two_channels))).
Proof.
  exact (index_twice_is_index_once example_discord 1 (init two_channels)
           (fst (index example_discord 1 (init two_channels)))
           eq_refl example_ids_are_not_zero).
Defined.

Lemma quiet_day_readable :
  forall c,
    In c (db.get_snitch_channels (Some 1) (database (init quiet_day))) ->
    read_messages (example_discord (channel_id c)) = true
    /\ history (example_discord (channel_id c)) <> None.
Proof. intros c [<-|[]]; split; (reflexivity || discriminate). Qed.

Lemma full_reindex_witness :
  exists s',
    full_reindex true example_discord 1 true (init quiet_day)
    = ([NoticeDropping], (s', Returned))
    /\ event (conn (database s'))
       = [(msg 5 10 ping, toy_event ping); (msg 3 10 ping, toy_event ping)]
    /\ disk (database s') = conn (database s').
Proof.
  assert (db.get_snitch_channels (Some 1) (database (init quiet_day)) <> [])
    as NE by discriminate.
  exact (full_reindex_rebuilds_the_events_of_the_guild true example_discord 1
           (init quiet_day) NE quiet_day_readable).
Defined.

Lemma full_reindex_refused_witness :
  snd (snd (full_reindex true one_unreadable 1 true (init quiet_day)))
  = Returned
  /\ conn (database (fst (snd (full_reindex true one_unreadable 1 true
                                 (init quiet_day)))))
     = {| snitch_channel := [row 10 None]; event := [];
          render_history := [] |}.
Proof.
  assert (db.get_snitch_channels (Some 1) (database (init quiet_day)) = []
          \/ first_unreadable one_unreadable
               (db.get_snitch_channels (Some 1) (database (init quiet_day)))
             <> None) as H by (right; discriminate).
  pose proof (full_reindex_without_index_leaves_the_guild_empty true
                one_unreadable 1 (init quiet_day) H) as T.
  cbv zeta in T. destruct T as (R & C & _). split; [exact R|exact C].
Defined.

Lemma export_svis_witness :
  render 1 77 (with_export (Some "svis") default_args) example_clock quiet_day
  = render 1 77 (with_export None (with_export (Some "svis") default_args))
      example_clock quiet_day.
Proof.
  apply export_svis_renders_like_no_export. left. reflexivity.
Defined.

Lemma usage_counts_witness :
  db.get_pixel_usage 1 0 2000000
    (snd (render 1 77 default_args example_clock quiet_day))
  = db.get_pixel_usage 1 0 2000000 quiet_day + 49000000.
Proof.
  pose proof
    (completed_render_counts_towards_the_usage 1 77 default_args
       example_clock quiet_day
       (snd (fst (render 1 77 default_args example_clock quiet_day)))
       (snd (render 1 77 default_args example_clock quiet_day))
       eq_refl) as T.
  cbv zeta in T. destruct T as (U & _). exact (U 0 2000000).
Defined.

Lemma zero_duration_witness :
  fst (fst (render 1 77 (with_quality 1000000000 20 0 default_args)
              example_clock quiet_day)) <> TooManyPixels
  /\ fst (fst (render 1 77 (with_quality 1000000000 20 0 default_args)
                 example_clock quiet_day)) = Rendered.
Proof.
  split; [|reflexivity].
  assert (duration (with_quality 1000000000 20 0 default_args)
          * fps (with_quality 1000000000 20 0 default_args) <= 0) as NP
    by (simpl; lia).
  pose proof
    (pixel_limit_is_no_bound_on_the_size 1 77
       (with_quality 1000000000 20 0 default_args) example_clock quiet_day
       (fst (fst (render 1 77 (with_quality 1000000000 20 0 default_args)
                    example_clock quiet_day)))
       (snd (fst (render 1 77 (with_quality 1000000000 20 0 default_args)
                    example_clock quiet_day)))
       (snd (render 1 77 (with_quality 1000000000 20 0 default_args)
               example_clock quiet_day))
       NP eq_refl) as T.
  destruct T as [T _]. exact T.
Defined.

Lemma video_is_logged_witness :
  In LogVideo (snd (fst (render 1 77 default_args example_clock quiet_day))).
Proof.
  pose proof
    (video_is_logged_unless_the_author_is_exempt 1 77 default_args
       example_clock quiet_day
       (fst (fst (render 1 77 default_args example_clock quiet_day)))
       (snd (fst (render 1 77 default_args example_clock quiet_day)))
       (snd (render 1 77 default_args example_clock quiet_day))
       eq_refl) as T.
  apply T. split; [reflexivity|discriminate].
Defined.

Lemma events_by_name_witness :
  StronglySorted newer_first
    [(msg 3 10 ping, sighting (Some "gate") 1 2 3 50);
     (msg 1 10 ping, sighting (Some "gate") 1 2 3 30);
     (msg 5 10 ping, sighting (Some "gate") 1 2 3 20)].
Proof.
  pose proof (events_by_name_lists_the_ten_most_recent toy_int 1 "gate" None
                watched eq_refl) as T.
  cbv zeta in T. destruct T as [_ T].
  destruct (T _ eq_refl) as (_ & _ & S & _). exact S.
Defined.

